(** * GoREAL: request validators and the spreadsheet-backed record store

    A shallow embedding of [goreal/core/validators.py],
    [goreal/core/sheets_client.py] and the handlers of
    [goreal/api/routes.py], together with the properties of the
    validation-and-persistence contract.

    Conventions of the embedding:
    - a Python [str] is a [string]; its characters are the code points
      below 256 (Latin-1), the character classes of [re], [str.strip] and
      case folding being the ones of Python 3 on that range;
    - a JSON scalar or a spreadsheet cell is a [pyval];
    - a [dict] with string keys is a [gmap string pyval];
    - the functions of the store client run in a small state-and-exception
      monad over the state of the external spreadsheet. *)

From Stdlib Require Import ZArith Ascii String.
From stdpp Require Import base option list strings pretty gmap.

Local Open Scope string_scope.

(** ** Python values *)

Inductive pyval : Type :=
  | PyNone
  | PyBool (b : bool)
  | PyInt (z : Z)
  | PyStr (s : string).

(** [str(v)] *)
Definition py_str (v : pyval) : string :=
  match v with
  | PyNone => "None"
  | PyBool true => "True"
  | PyBool false => "False"
  | PyInt z => pretty z
  | PyStr s => s
  end.

(** Truth value of [v], as tested by [if not v]. *)
Definition py_truthy (v : pyval) : bool :=
  match v with
  | PyNone => false
  | PyBool b => b
  | PyInt z => negb (Z.eqb z 0)
  | PyStr s => negb (String.eqb s "")
  end.

(** ** Characters and strings *)

Abbreviation chars := (list ascii).

Definition code (c : ascii) : nat := nat_of_ascii c.

Definition in_range (lo hi : nat) (c : ascii) : bool :=
  Nat.leb lo (code c) && Nat.leb (code c) hi.

Definition is_upper (c : ascii) : bool := in_range 65 90 c.
Definition is_lower (c : ascii) : bool := in_range 97 122 c.

(** Case folding of the ASCII letters; the literals of every pattern
    below are ASCII, and on code points below 256 an ASCII letter is
    matched case-insensitively by its two ASCII case variants only. *)
Definition to_lower (c : ascii) : ascii :=
  if is_upper c then ascii_of_nat (code c + 32) else c.

Definition to_upper (c : ascii) : ascii :=
  if is_lower c then ascii_of_nat (code c - 32) else c.

(** [\w] on code points below 256: letters, digits (in the Unicode
    sense of [str.isalnum]) and the underscore. *)
Definition is_word (c : ascii) : bool :=
  in_range 48 57 c || in_range 65 90 c || Nat.eqb (code c) 95
  || in_range 97 122 c || Nat.eqb (code c) 170 || in_range 178 179 c
  || Nat.eqb (code c) 181 || in_range 185 186 c || in_range 188 190 c
  || in_range 192 214 c || in_range 216 246 c || in_range 248 255 c.

(** Whitespace removed by [str.strip()] on code points below 256. *)
Definition is_space (c : ascii) : bool :=
  in_range 9 13 c || in_range 28 32 c
  || Nat.eqb (code c) 133 || Nat.eqb (code c) 160.

Definition newline : ascii := ascii_of_nat 10.

Fixpoint lstrip (s : chars) : chars :=
  match s with
  | c :: s' => if is_space c then lstrip s' else s
  | [] => []
  end.

Definition rstrip (s : chars) : chars := rev (lstrip (rev s)).

Definition strip (s : chars) : chars := rstrip (lstrip s).

(** [str.strip()] *)
Definition py_strip (s : string) : string :=
  string_of_list_ascii (strip (list_ascii_of_string s)).

(** The double quote. *)
Definition dquote : ascii := ascii_of_nat 34.

(** [html.escape(s)] with its default [quote=True]. *)
Definition escape_char (c : ascii) : chars :=
  if Ascii.eqb c "&" then list_ascii_of_string "&amp;"
  else if Ascii.eqb c "<" then list_ascii_of_string "&lt;"
  else if Ascii.eqb c ">" then list_ascii_of_string "&gt;"
  else if Ascii.eqb c dquote then list_ascii_of_string "&quot;"
  else if Ascii.eqb c "'" then list_ascii_of_string "&#x27;"
  else [c].

Fixpoint escape (s : chars) : chars :=
  match s with
  | [] => []
  | c :: s' => (escape_char c ++ escape s')%list
  end.

Definition html_escape (s : string) : string :=
  string_of_list_ascii (escape (list_ascii_of_string s)).

(** ** Regular expressions

    The fragment of Python's [re] used by the validators: a pattern is a
    sequence of atoms, an atom being an anchor or a character class under
    a quantifier. The matcher is the backtracking matcher of [re]: a
    greedy quantifier tries the longest repetition first, a lazy one the
    shortest. *)

Inductive cclass : Type :=
  | Lit (a : ascii)                       (* a literal character *)
  | Dot                                   (* [.] *)
  | Word                                  (* [\w] *)
  | NoneOf (l : list ascii)               (* [[^...]] *)
  | OneOf (l : list (ascii * ascii)).     (* [[a-z...]], a list of ranges *)

Inductive quant : Type :=
  | Once
  | Star                                  (* [*] *)
  | StarLazy                              (* [*?] *)
  | Plus.                                 (* [+] *)

Inductive atom : Type :=
  | Bol                                   (* [^] *)
  | Eol                                   (* [$] *)
  | Rep (c : cclass) (q : quant).

Abbreviation regex := (list atom).

(** A run of literal characters. *)
Definition lits (s : string) : regex :=
  map (fun a => Rep (Lit a) Once) (list_ascii_of_string s).

(** [ic] is the flag [re.IGNORECASE]. *)
Definition char_eq (ic : bool) (a b : ascii) : bool :=
  if ic then Ascii.eqb (to_lower a) (to_lower b) else Ascii.eqb a b.

Definition in_ranges (l : list (ascii * ascii)) (c : ascii) : bool :=
  existsb (fun r => in_range (code (fst r)) (code (snd r)) c) l.

Definition cls_match (ic : bool) (c : cclass) (ch : ascii) : bool :=
  match c with
  | Lit a => char_eq ic a ch
  | Dot => negb (Ascii.eqb ch newline)
  | Word => is_word ch
  | NoneOf l => negb (existsb (fun a => char_eq ic a ch) l)
  | OneOf l =>
      if ic then in_ranges l (to_lower ch) || in_ranges l (to_upper ch)
      else in_ranges l ch
  end.

(** The continuation [k] receives whether the position is still the
    beginning of the string, and the rest of the subject. *)
Fixpoint rep_greedy (p : ascii -> bool) (k : bool -> chars -> option chars)
    (bos : bool) (s : chars) : option chars :=
  match s with
  | ch :: s' =>
      if p ch then
        match rep_greedy p k false s' with
        | Some r => Some r
        | None => k bos s
        end
      else k bos s
  | [] => k bos s
  end.

Fixpoint rep_lazy (p : ascii -> bool) (k : bool -> chars -> option chars)
    (bos : bool) (s : chars) : option chars :=
  match k bos s with
  | Some r => Some r
  | None =>
      match s with
      | ch :: s' => if p ch then rep_lazy p k false s' else None
      | [] => None
      end
  end.

(** [match_here ic re bos s]: match [re] at the head of [s]; the result
    is what follows the match in [s]. *)
Fixpoint match_here (ic : bool) (re : regex) (bos : bool) (s : chars)
    : option chars :=
  match re with
  | [] => Some s
  | Bol :: k => if bos then match_here ic k bos s else None
  | Eol :: k =>
      match s with
      | [] => match_here ic k bos s
      | [c] => if Ascii.eqb c newline then match_here ic k bos s else None
      | _ => None
      end
  | Rep c Once :: k =>
      match s with
      | ch :: s' => if cls_match ic c ch then match_here ic k false s' else None
      | [] => None
      end
  | Rep c Star :: k => rep_greedy (cls_match ic c) (match_here ic k) bos s
  | Rep c StarLazy :: k => rep_lazy (cls_match ic c) (match_here ic k) bos s
  | Rep c Plus :: k =>
      match s with
      | ch :: s' =>
          if cls_match ic c ch
          then rep_greedy (cls_match ic c) (match_here ic k) false s'
          else None
      | [] => None
      end
  end.

(** Is there a match starting at some position of [s]? *)
Fixpoint search_from (ic : bool) (re : regex) (bos : bool) (s : chars) : bool :=
  match match_here ic re bos s with
  | Some _ => true
  | None =>
      match s with
      | [] => false
      | _ :: s' => search_from ic re false s'
      end
  end.

(** Remove the leftmost non-overlapping matches of [re]; [skip] counts
    the characters of the current match still to be dropped. *)
Fixpoint sub_from (ic : bool) (re : regex) (bos : bool) (skip : nat) (s : chars)
    : chars :=
  match s with
  | [] => []
  | ch :: s' =>
      match skip with
      | S n => sub_from ic re false n s'
      | O =>
          match match_here ic re bos s with
          | Some r =>
              match length s - length r with
              | S n => sub_from ic re false n s'
              | O => ch :: sub_from ic re false 0 s'
              end
          | None => ch :: sub_from ic re false 0 s'
          end
      end
  end.

(** [pattern.match(s)] *)
Definition re_match (ic : bool) (re : regex) (s : string) : bool :=
  match match_here ic re true (list_ascii_of_string s) with
  | Some _ => true
  | None => false
  end.

(** [re.search(pattern, s, flags)] *)
Definition re_search (ic : bool) (re : regex) (s : string) : bool :=
  search_from ic re true (list_ascii_of_string s).

(** [re.sub(pattern, '', s, flags=flags)] *)
Definition re_sub (ic : bool) (re : regex) (s : string) : string :=
  string_of_list_ascii (sub_from ic re true 0 (list_ascii_of_string s)).

(** ** validators.py *)

Module Validators.

Definition MAX_TEXT_LENGTH : nat := 10000.
Definition MAX_ID_LENGTH : nat := 100.

(** [^[a-zA-Z0-9_-]+$] *)
Definition ALLOWED_ID_PATTERN : regex :=
  [Bol;
   Rep (OneOf [("a", "z"); ("A", "Z"); ("0", "9"); ("_", "_"); ("-", "-")]%char) Plus;
   Eol].

Definition MALICIOUS_PATTERNS : list regex :=
  [ (* <script[^>]*>.*?</script> *)
    (lits "<script" ++ [Rep (NoneOf [">"%char]) Star] ++ lits ">"
       ++ [Rep Dot StarLazy] ++ lits "</script>")%list;
    (* javascript: *)
    lits "javascript:";
    (* on\w+= *)
    (lits "on" ++ [Rep Word Plus] ++ lits "=")%list;
    (* expression\( *)
    lits "expression(";
    (* eval\( *)
    lits "eval(" ].

Definition sanitize_input (text : string) : string :=
  let text := html_escape text in
  let text := foldl (fun t pattern => re_sub true pattern t) text MALICIOUS_PATTERNS in
  py_strip text.

Definition validate_id_format (identifier : string) : bool * string :=
  if String.eqb identifier "" then (false, "ID cannot be empty")
  else if Nat.ltb MAX_ID_LENGTH (String.length identifier) then
    (false, "ID too long (max " +:+ pretty MAX_ID_LENGTH +:+ " characters)")
  else if negb (re_match false ALLOWED_ID_PATTERN identifier) then
    (false, "ID contains invalid characters (only alphanumeric, underscore, and dash allowed)")
  else (true, "").

Definition validate_text_field (text field_name : string) (max_length : nat)
    : bool * string :=
  if String.eqb text "" then (false, field_name +:+ " cannot be empty")
  else if Nat.ltb max_length (String.length text) then
    (false, field_name +:+ " too long (max " +:+ pretty max_length +:+ " characters)")
  else if existsb (fun pattern => re_search true pattern text) MALICIOUS_PATTERNS then
    (false, field_name +:+ " contains potentially malicious content")
  else (true, "").

(** The loop over [required_fields] of [validate_challenge_data]: [Some]
    is the tuple of an early [return], [None] a loop that ran to its end. *)
Fixpoint challenge_checks (fields : list string) (data : gmap string pyval)
    : option (bool * string) :=
  match fields with
  | [] => None
  | field :: rest =>
      match data !! field with
      | None => Some (false, "Missing required field: " +:+ field)
      | Some value =>
          if negb (py_truthy value) then
            Some (false, "Empty value for field: " +:+ field)
          else if existsb (String.eqb field) ["playerId"; "challengeId"] then
            let '(is_valid, error) := validate_id_format (py_str value) in
            if negb is_valid then Some (false, field +:+ ": " +:+ error)
            else challenge_checks rest data
          else if String.eqb field "playerName" then
            let '(is_valid, error) := validate_text_field (py_str value) field 100 in
            if negb is_valid then Some (false, error)
            else challenge_checks rest data
          else challenge_checks rest data
      end
  end.

(** The loop of [validate_submission_data]. *)
Fixpoint submission_checks (fields : list string) (data : gmap string pyval)
    : option (bool * string) :=
  match fields with
  | [] => None
  | field :: rest =>
      match data !! field with
      | None => Some (false, "Missing required field: " +:+ field)
      | Some value =>
          if negb (py_truthy value) then
            Some (false, "Empty value for field: " +:+ field)
          else if existsb (String.eqb field) ["playerId"; "challengeId"] then
            let '(is_valid, error) := validate_id_format (py_str value) in
            if negb is_valid then Some (false, field +:+ ": " +:+ error)
            else submission_checks rest data
          else if String.eqb field "submissionText" then
            let '(is_valid, error) := validate_text_field (py_str value) field 5000 in
            if negb is_valid then Some (false, error)
            else submission_checks rest data
          else submission_checks rest data
      end
  end.

(** The second loop of both validators: [data[field] =
    sanitize_input(str(data[field]))] for every field present. *)
Definition sanitize_fields (fields : list string) (data : gmap string pyval)
    : gmap string pyval :=
  foldl (fun d field =>
           match d !! field with
           | Some value => <[field := PyStr (sanitize_input (py_str value))]> d
           | None => d
           end) data fields.

(** A validator returns its tuple and leaves the payload it was given in
    its final state; [None] is a request without a JSON body. *)
Definition validate_challenge_data (data : option (gmap string pyval))
    : (bool * string) * option (gmap string pyval) :=
  let required_fields := ["playerId"; "playerName"; "challengeId"] in
  match data with
  | None => ((false, "No JSON data provided"), data)
  | Some d =>
      if Nat.eqb (size d) 0 then ((false, "No JSON data provided"), data)
      else
        match challenge_checks required_fields d with
        | Some ret => (ret, data)
        | None => ((true, ""), Some (sanitize_fields required_fields d))
        end
  end.

Definition validate_submission_data (data : option (gmap string pyval))
    : (bool * string) * option (gmap string pyval) :=
  let required_fields := ["playerId"; "challengeId"; "submissionText"] in
  match data with
  | None => ((false, "No JSON data provided"), data)
  | Some d =>
      if Nat.eqb (size d) 0 then ((false, "No JSON data provided"), data)
      else
        match submission_checks required_fields d with
        | Some ret => (ret, data)
        | None => ((true, ""), Some (sanitize_fields required_fields d))
        end
  end.

(** The query parameters are absent ([None]) or strings. *)
Definition validate_status_query (player_id challenge_id : option string)
    : bool * string :=
  match player_id, challenge_id with
  | None, _ | Some "", _ => (false, "Missing required parameter: playerId")
  | _, None | _, Some "" => (false, "Missing required parameter: challengeId")
  | Some pid, Some cid =>
      let '(is_valid, error) := validate_id_format pid in
      if negb is_valid then (false, "playerId: " +:+ error)
      else
        let '(is_valid, error) := validate_id_format cid in
        if negb is_valid then (false, "challengeId: " +:+ error)
        else (true, "")
  end.

End Validators.

(** ** The external spreadsheet and the client's state

    A worksheet is its grid of cells, row by row; the first row holds the
    column headers. The state of the world seen by the client: whether
    the spreadsheet can be opened, the handle cached by the client, the
    worksheets by name, the outcome of the forthcoming calls of the
    store's API ([true]: the call succeeds; calls beyond the list succeed)
    and the readings of the clock. *)

Record World : Type := mkWorld {
  can_connect : bool;
  sheet_handle : bool;
  worksheets : gmap string (list (list pyval));
  outcomes : list bool;
  clock : nat -> string;
  ticks : nat
}.

Definition set_handle (b : bool) (w : World) : World :=
  mkWorld (can_connect w) b (worksheets w) (outcomes w) (clock w) (ticks w).

Definition set_worksheets (ws : gmap string (list (list pyval))) (w : World) : World :=
  mkWorld (can_connect w) (sheet_handle w) ws (outcomes w) (clock w) (ticks w).

Definition set_outcomes (o : list bool) (w : World) : World :=
  mkWorld (can_connect w) (sheet_handle w) (worksheets w) o (clock w) (ticks w).

Definition set_ticks (n : nat) (w : World) : World :=
  mkWorld (can_connect w) (sheet_handle w) (worksheets w) (outcomes w) (clock w) n.

(** A computation returns a value or raises an exception, and leaves a
    new state of the world. *)
Inductive result (A : Type) : Type :=
  | Ok (a : A)
  | Raised.
Arguments Ok {A} a.
Arguments Raised {A}.

Definition M (A : Type) : Type := World -> result A * World.

Definition ret {A} (a : A) : M A := fun w => (Ok a, w).

Definition bind {A B} (m : M A) (f : A -> M B) : M B :=
  fun w =>
    match m w with
    | (Ok a, w') => f a w'
    | (Raised, w') => (Raised, w')
    end.

Definition raise {A} : M A := fun w => (Raised, w).

(** [try: body except Exception: handler] *)
Definition try_except {A} (body handler : M A) : M A :=
  fun w =>
    match body w with
    | (Ok a, w') => (Ok a, w')
    | (Raised, w') => handler w'
    end.

(** A function whose body is one [try] with a handler that returns never
    raises; [run] gives its value. *)
Definition run {A} (dflt : A) (m : M A) (w : World) : A * World :=
  match m w with
  | (Ok a, w') => (a, w')
  | (Raised, w') => (dflt, w')
  end.

Notation "x <- m ;; k" := (bind m (fun x => k))
  (at level 100, m at next level, right associativity).

Module Sheets.

(** One call of the store's API: it raises when the next outcome says so. *)
Definition api_call : M unit :=
  fun w =>
    match outcomes w with
    | [] => (Ok tt, w)
    | true :: o => (Ok tt, set_outcomes o w)
    | false :: o => (Raised, set_outcomes o w)
    end.

(** [dict(zip(keys, values))]: a later pair overrides an earlier one. *)
Definition dict_zip (keys : list string) (values : list pyval) : gmap string pyval :=
  foldl (fun d kv => <[kv.1 := kv.2]> d) ∅ (zip keys values).

Definition records_of (g : list (list pyval)) : list (gmap string pyval) :=
  match g with
  | [] => []
  | head :: body => map (dict_zip (map py_str head)) body
  end.

(** [worksheet.get_all_records()]: a dictionary per row below the header
    row, keyed by the headers. *)
Definition get_all_records (worksheet : string) : M (list (gmap string pyval)) :=
  _ <- api_call ;;
  fun w =>
    match worksheets w !! worksheet with
    | Some g => (Ok (records_of g), w)
    | None => (Raised, w)
    end.

(** [worksheet.append_row(row_data)] *)
Definition append_row (worksheet : string) (row_data : list pyval) : M unit :=
  _ <- api_call ;;
  fun w =>
    match worksheets w !! worksheet with
    | Some g => (Ok tt, set_worksheets (<[worksheet := (g ++ [row_data])%list]> (worksheets w)) w)
    | None => (Raised, w)
    end.

(** [worksheet.update_cell(row, col, value)], rows and columns counted
    from 1; a cell outside the grid is an error of the API. *)
Definition update_cell (worksheet : string) (row col : nat) (value : pyval) : M unit :=
  _ <- api_call ;;
  fun w =>
    match worksheets w !! worksheet with
    | Some g =>
        match row, col with
        | S r, S c =>
            match g !! r with
            | Some cells =>
                if Nat.ltb c (length cells) then
                  (Ok tt, set_worksheets
                            (<[worksheet := <[r := <[c := value]> cells]> g]> (worksheets w)) w)
                else (Raised, w)
            | None => (Raised, w)
            end
        | _, _ => (Raised, w)
        end
    | None => (Raised, w)
    end.

(** [datetime.now().strftime("%Y-%m-%d %H:%M:%S")] *)
Definition datetime_now : M string :=
  fun w => (Ok (clock w (ticks w)), set_ticks (S (ticks w)) w).

Definition playerlog_sheet : string := "PlayerLog".
Definition challenges_sheet : string := "Challenges".

(** [connect]: the handle of the spreadsheet, or [None]; it never raises. *)
Definition connect : M bool :=
  fun w =>
    if can_connect w then (Ok true, set_handle true w)
    else (Ok false, w).

(** [get_worksheet]: the worksheet of that name, or [None]. *)
Definition get_worksheet (worksheet_name : string) : M (option string) :=
  fun w =>
    let '(connected, w) :=
      if negb (sheet_handle w) then run false connect w else (true, w) in
    if negb connected then (Ok None, w)
    else
      match worksheets w !! worksheet_name with
      | Some _ => (Ok (Some worksheet_name), w)
      | None => (Ok None, w)
      end.

(** [record.get(key, dflt)] *)
Definition dict_get (record : gmap string pyval) (key : string) (dflt : pyval) : pyval :=
  default dflt (record !! key).

(** The test of both scans: [str(record.get("PlayerID", "")) ==
    str(player_id) and str(record.get("ChallengeID", "")) ==
    str(challenge_id)]. *)
Definition row_matches (player_id challenge_id : pyval) (record : gmap string pyval) : bool :=
  String.eqb (py_str (dict_get record "PlayerID" (PyStr ""))) (py_str player_id)
  && String.eqb (py_str (dict_get record "ChallengeID" (PyStr ""))) (py_str challenge_id).

Definition log_challenge (player_id player_name challenge_id status submission_text : pyval)
    : World -> bool * World :=
  run false (try_except
    (worksheet <- get_worksheet playerlog_sheet ;;
     match worksheet with
     | None => ret false
     | Some worksheet =>
         timestamp <- datetime_now ;;
         let row_data :=
           [PyStr timestamp; PyStr (py_str player_id); PyStr (py_str player_name);
            PyStr (py_str challenge_id); status; submission_text] in
         _ <- append_row worksheet row_data ;;
         ret true
     end)
    (ret false)).

(** [for idx in range(len(records) - 1, -1, -1)]: [n] is [idx + 1]. *)
Fixpoint find_matching_row (player_id challenge_id : pyval)
    (records : list (gmap string pyval)) (n : nat) : option nat :=
  match n with
  | O => None
  | S idx =>
      match records !! idx with
      | Some record =>
          if row_matches player_id challenge_id record
          then Some (idx + 2)     (* +2 for 1-indexed rows and headers *)
          else find_matching_row player_id challenge_id records idx
      | None => find_matching_row player_id challenge_id records idx
      end
  end.

Definition update_submission (player_id challenge_id submission_text status : pyval)
    : World -> bool * World :=
  run false (try_except
    (worksheet <- get_worksheet playerlog_sheet ;;
     match worksheet with
     | None => ret false
     | Some worksheet =>
         records <- get_all_records worksheet ;;
         match records with
         | [] => ret false
         | _ =>
             match find_matching_row player_id challenge_id records (length records) with
             | None => ret false
             | Some matching_row_index =>
                 _ <- update_cell worksheet matching_row_index 5 status ;;
                 _ <- update_cell worksheet matching_row_index 6 submission_text ;;
                 ret true
             end
         end
     end)
    (ret false)).

Record StatusInfo : Type := mkStatusInfo {
  status : pyval;
  timestamp : pyval;
  playerName : pyval;
  submissionText : pyval
}.

(** The dictionary returned for a matching record. *)
Definition status_info (record : gmap string pyval) : StatusInfo :=
  {| status := dict_get record "Status" (PyStr "Unknown");
     timestamp := dict_get record "Timestamp" (PyStr "");
     playerName := dict_get record "PlayerName" (PyStr "");
     submissionText := dict_get record "SubmissionText" (PyStr "") |}.

(** [for record in reversed(records)] *)
Fixpoint first_match (player_id challenge_id : pyval)
    (reversed_records : list (gmap string pyval)) : option StatusInfo :=
  match reversed_records with
  | [] => None
  | record :: rest =>
      if row_matches player_id challenge_id record then Some (status_info record)
      else first_match player_id challenge_id rest
  end.

Definition get_player_status (player_id challenge_id : pyval)
    : World -> option StatusInfo * World :=
  run None (try_except
    (worksheet <- get_worksheet playerlog_sheet ;;
     match worksheet with
     | None => ret None
     | Some worksheet =>
         records <- get_all_records worksheet ;;
         match records with
         | [] => ret None
         | _ => ret (first_match player_id challenge_id (rev records))
         end
     end)
    (ret None)).

Definition get_challenges : World -> list (gmap string pyval) * World :=
  run [] (try_except
    (worksheet <- get_worksheet challenges_sheet ;;
     match worksheet with
     | None => ret []
     | Some worksheet =>
         records <- get_all_records worksheet ;;
         match records with
         | [] => ret []
         | _ => ret records
         end
     end)
    (ret [])).

End Sheets.

(** ** routes.py: the handlers

    A handler returns its response and the new state of the world. The
    text of a caught exception, which the source appends to the message
    of its answer 500, has no counterpart here: no call of the client
    raises, each of its functions catching every exception. *)

Module Routes.

Record Response : Type := mkResponse {
  http_status : nat;
  body_status : string;
  body_message : string
}.

(** [POST /submit_challenge]; [data] is [request.get_json()]. *)
Definition submit_challenge (data : option (gmap string pyval)) : World -> Response * World :=
  run (mkResponse 500 "error" "Internal server error") (try_except
    (let '((is_valid, error_message), data) := Validators.validate_submission_data data in
     if negb is_valid then ret (mkResponse 400 "error" error_message)
     else
       match data with
       | None => raise
       | Some data =>
           match data !! "playerId", data !! "challengeId", data !! "submissionText" with
           | Some player_id, Some challenge_id, Some submission_text =>
               fun w =>
                 let '(success, w) :=
                   Sheets.update_submission player_id challenge_id submission_text
                     (PyStr "Submitted") w in
                 if success then (Ok (mkResponse 200 "success" "Submission received."), w)
                 else
                   (Ok (mkResponse 404 "error"
                          ("No matching challenge log found for playerId "
                             +:+ py_str player_id +:+ " and challengeId "
                             +:+ py_str challenge_id)), w)
           | _, _, _ => raise
           end
       end)
    (ret (mkResponse 500 "error" "Internal server error"))).

(** [POST /log_challenge] *)
Definition log_challenge (data : option (gmap string pyval)) : World -> Response * World :=
  run (mkResponse 500 "error" "Internal server error") (try_except
    (let '((is_valid, error_message), data) := Validators.validate_challenge_data data in
     if negb is_valid then ret (mkResponse 400 "error" error_message)
     else
       match data with
       | None => raise
       | Some data =>
           match data !! "playerId", data !! "playerName", data !! "challengeId" with
           | Some player_id, Some player_name, Some challenge_id =>
               fun w =>
                 let '(success, w) :=
                   Sheets.log_challenge player_id player_name challenge_id
                     (PyStr "Received") (PyStr "") w in
                 if success then
                   (Ok (mkResponse 200 "success" "Data logged successfully"), w)
                 else
                   (Ok (mkResponse 500 "error" "Failed to log data to Google Sheets"), w)
           | _, _, _ => raise
           end
       end)
    (ret (mkResponse 500 "error" "Internal server error"))).

(** The JSON object of a response, by key. *)
Definition json_object (fields : list (string * pyval)) : gmap string pyval :=
  list_to_map fields.

(** [GET /get_status]; the arguments are [request.args.get("playerId")]
    and [request.args.get("challengeId")]. The result is the status code
    and the JSON object of the body. *)
Definition get_status (player_id challenge_id : option string)
    : World -> (nat * gmap string pyval) * World :=
  run (500, json_object [("status", PyStr "error");
                         ("message", PyStr "Internal server error")])
    (try_except
      (let '(is_valid, error_message) :=
         Validators.validate_status_query player_id challenge_id in
       if negb is_valid then
         ret (400, json_object [("status", PyStr "error");
                                ("message", PyStr error_message)])
       else
         match player_id, challenge_id with
         | Some player_id, Some challenge_id =>
             fun w =>
               let '(status_data, w) :=
                 Sheets.get_player_status (PyStr player_id) (PyStr challenge_id) w in
               match status_data with
               | Some status_data =>
                   (Ok (200, json_object
                               [("status", PyStr "Found");
                                ("challengeStatus", Sheets.status status_data);
                                ("timestamp", Sheets.timestamp status_data);
                                ("playerName", Sheets.playerName status_data);
                                ("submissionText", Sheets.submissionText status_data)]),
                    w)
               | None =>
                   (Ok (404, json_object [("status", PyStr "NotFound");
                                          ("challengeStatus", PyNone)]), w)
               end
         | _, _ => raise
         end)
      (ret (500, json_object [("status", PyStr "error");
                              ("message", PyStr "Internal server error")]))).

Record ChallengesResponse : Type := mkChallengesResponse {
  cr_http_status : nat;
  cr_status : string;
  cr_message : string;
  cr_challenges : list (gmap string pyval)
}.

(** [GET /get_challenges] *)
Definition get_challenges : World -> ChallengesResponse * World :=
  run (mkChallengesResponse 500 "error" "Internal server error" [])
    (try_except
      (fun w =>
         let '(challenges, w) := Sheets.get_challenges w in
         (Ok (mkChallengesResponse 200 "success"
                ("Retrieved " +:+ pretty (length challenges)
                   +:+ " challenges successfully") challenges), w))
      (ret (mkChallengesResponse 500 "error" "Internal server error" []))).

End Routes.

(** * Properties *)

(** ** Deciding a property of every character *)

Definition all_ascii : list ascii := map ascii_of_nat (seq 0 256).

Lemma forall_ascii (f : ascii -> bool) :
  forallb f all_ascii = true -> forall c, f c = true.
Proof.
  intros H c. rewrite forallb_forall in H. apply H.
  unfold all_ascii. rewrite <- (ascii_nat_embedding c).
  apply in_map, in_seq. pose proof (nat_ascii_bounded c). lia.
Qed.

(** ** The language of a pattern without anchors *)

Section RegexTheory.

Variable ic : bool.

Definition anchor_free (re : regex) : bool :=
  forallb (fun a => match a with Rep _ _ => true | _ => false end) re.

(** [lang re m]: the whole of [m] is a match of [re]. *)
Fixpoint lang (re : regex) (m : chars) : Prop :=
  match re with
  | [] => m = []
  | Bol :: _ | Eol :: _ => False
  | Rep c Once :: k =>
      exists ch m', m = ch :: m' /\ cls_match ic c ch = true /\ lang k m'
  | Rep c Star :: k | Rep c StarLazy :: k =>
      exists m1 m2, m = (m1 ++ m2)%list
        /\ Forall (fun ch => cls_match ic c ch = true) m1 /\ lang k m2
  | Rep c Plus :: k =>
      exists ch m1 m2, m = ch :: (m1 ++ m2)%list /\ cls_match ic c ch = true
        /\ Forall (fun ch => cls_match ic c ch = true) m1 /\ lang k m2
  end.

Lemma rep_greedy_sound p k bos s r :
  rep_greedy p k bos s = Some r ->
  exists m1 s2 b, s = (m1 ++ s2)%list /\ Forall (fun ch => p ch = true) m1
    /\ k b s2 = Some r.
Proof.
  revert bos. induction s as [|ch s IH]; intros bos H; simpl in H.
  - exists [], [], bos. auto.
  - destruct (p ch) eqn:Hp.
    + destruct (rep_greedy p k false s) as [r'|] eqn:Hg.
      * injection H as <-. destruct (IH _ Hg) as (m1 & s2 & b & -> & Hf & Hk).
        exists (ch :: m1), s2, b. auto.
      * exists [], (ch :: s), bos. auto.
    + exists [], (ch :: s), bos. auto.
Qed.

Lemma rep_lazy_sound p k bos s r :
  rep_lazy p k bos s = Some r ->
  exists m1 s2 b, s = (m1 ++ s2)%list /\ Forall (fun ch => p ch = true) m1
    /\ k b s2 = Some r.
Proof.
  revert bos. induction s as [|ch s IH]; intros bos H; simpl in H.
  - destruct (k bos []) eqn:Hk; [|discriminate].
    exists [], [], bos. split; [done|]. split; [constructor|]. congruence.
  - destruct (k bos (ch :: s)) eqn:Hk.
    + exists [], (ch :: s), bos. split; [done|]. split; [constructor|]. congruence.
    + destruct (p ch) eqn:Hp; [|discriminate].
      destruct (IH _ H) as (m1 & s2 & b & -> & Hf & Hk').
      exists (ch :: m1), s2, b. auto.
Qed.

Lemma match_here_sound re : forall bos s r,
  anchor_free re = true -> match_here ic re bos s = Some r ->
  exists m, s = (m ++ r)%list /\ lang re m.
Proof.
  induction re as [|a k IH]; intros bos s r Haf H; simpl in *.
  - injection H as <-. exists []. auto.
  - destruct a as [| |c q]; try discriminate.
    destruct q.
    + destruct s as [|ch s]; [discriminate|].
      destruct (cls_match ic c ch) eqn:Hc; [|discriminate].
      destruct (IH _ _ _ Haf H) as (m & -> & Hm).
      exists (ch :: m). split; [done|]. exists ch, m. auto.
    + destruct (rep_greedy_sound _ _ _ _ _ H) as (m1 & s2 & b & -> & Hf & Hk).
      destruct (IH _ _ _ Haf Hk) as (m & -> & Hm).
      exists (m1 ++ m)%list. rewrite <- app_assoc. split; [done|].
      exists m1, m. auto.
    + destruct (rep_lazy_sound _ _ _ _ _ H) as (m1 & s2 & b & -> & Hf & Hk).
      destruct (IH _ _ _ Haf Hk) as (m & -> & Hm).
      exists (m1 ++ m)%list. rewrite <- app_assoc. split; [done|].
      exists m1, m. auto.
    + destruct s as [|ch s]; [discriminate|].
      destruct (cls_match ic c ch) eqn:Hc; [|discriminate].
      destruct (rep_greedy_sound _ _ _ _ _ H) as (m1 & s2 & b & -> & Hf & Hk).
      destruct (IH _ _ _ Haf Hk) as (m & -> & Hm).
      exists (ch :: m1 ++ m)%list. simpl. rewrite <- app_assoc. split; [done|].
      exists ch, m1, m. auto.
Qed.

Lemma rep_greedy_complete p (k : bool -> chars -> option chars) m1 s2 :
  Forall (fun ch => p ch = true) m1 ->
  (forall b, is_Some (k b s2)) ->
  forall bos, is_Some (rep_greedy p k bos (m1 ++ s2)%list).
Proof.
  intros Hf Hk. induction Hf as [|ch m1 Hp Hf IH]; intros bos; simpl.
  - destruct s2 as [|ch s2]; simpl; [apply Hk|].
    destruct (p ch); [|apply Hk].
    destruct (rep_greedy p k false s2); [eauto|apply Hk].
  - rewrite Hp. destruct (IH false) as [r ->]. eauto.
Qed.

Lemma rep_lazy_complete p (k : bool -> chars -> option chars) m1 s2 :
  Forall (fun ch => p ch = true) m1 ->
  (forall b, is_Some (k b s2)) ->
  forall bos, is_Some (rep_lazy p k bos (m1 ++ s2)%list).
Proof.
  intros Hf Hk. induction Hf as [|ch m1 Hp Hf IH]; intros bos; simpl.
  - destruct s2 as [|ch s2]; simpl.
    + destruct (Hk bos) as [r ->]. eauto.
    + destruct (Hk bos) as [r ->]. eauto.
  - destruct (k bos (ch :: (m1 ++ s2)%list)); [eauto|].
    rewrite Hp. apply IH.
Qed.

Lemma match_here_complete re : forall m r bos,
  lang re m -> is_Some (match_here ic re bos (m ++ r)%list).
Proof.
  induction re as [|a k IH]; intros m r bos Hm; simpl in *.
  - subst m. eauto.
  - destruct a as [| |c q]; try done.
    destruct q.
    + destruct Hm as (ch & m' & -> & Hc & Hm). simpl. rewrite Hc. by apply IH.
    + destruct Hm as (m1 & m2 & -> & Hf & Hm). rewrite <- app_assoc.
      apply rep_greedy_complete; [done|]. intros b. by apply IH.
    + destruct Hm as (m1 & m2 & -> & Hf & Hm). rewrite <- app_assoc.
      apply rep_lazy_complete; [done|]. intros b. by apply IH.
    + destruct Hm as (ch & m1 & m2 & -> & Hc & Hf & Hm). simpl. rewrite Hc.
      rewrite <- app_assoc.
      apply rep_greedy_complete; [done|]. intros b. by apply IH.
Qed.

(** [s] has a substring that is a match of [re]. *)
Definition has_match (re : regex) (s : chars) : Prop :=
  exists pre m post, s = (pre ++ m ++ post)%list /\ lang re m.

Lemma search_from_spec re s : forall bos,
  anchor_free re = true ->
  search_from ic re bos s = true <-> has_match re s.
Proof.
  intros bos Haf. revert bos. induction s as [|ch s IH]; intros bos.
  - simpl. destruct (match_here ic re bos []) as [r|] eqn:Hm.
    + split; [intros _|done].
      destruct (match_here_sound _ _ _ _ Haf Hm) as (m & Hs & Hl).
      exists [], m, r. auto.
    + split; [done|]. intros (pre & m & post & Hs & Hl).
      symmetry in Hs. apply app_eq_nil in Hs as [-> Hs].
      apply app_eq_nil in Hs as [-> ->].
      destruct (match_here_complete re [] [] bos Hl) as [r Hr].
      simpl in Hr. congruence.
  - simpl. destruct (match_here ic re bos (ch :: s)) as [r|] eqn:Hm.
    + split; [intros _|done].
      destruct (match_here_sound _ _ _ _ Haf Hm) as (m & Hs & Hl).
      exists [], m, r. auto.
    + rewrite IH. split.
      * intros (pre & m & post & -> & Hl). exists (ch :: pre), m, post. auto.
      * intros (pre & m & post & Hs & Hl). destruct pre as [|c pre].
        -- simpl in Hs. destruct (match_here_complete re m post bos Hl) as [r Hr].
           rewrite <- Hs in Hr. congruence.
        -- injection Hs as -> ->. exists pre, m, post. auto.
Qed.

Lemma sub_from_no_match re s : forall bos,
  search_from ic re bos s = false -> sub_from ic re bos 0 s = s.
Proof.
  induction s as [|ch s IH]; intros bos H; simpl in *; [done|].
  destruct (match_here ic re bos (ch :: s)); [discriminate|].
  by rewrite IH.
Qed.

(** Every character of a match of [re] satisfies [f] when every class of
    [re] lies within [f]. *)
Definition cls_within (f : ascii -> bool) (c : cclass) : bool :=
  forallb (fun ch => implb (cls_match ic c ch) (f ch)) all_ascii.

Definition regex_within (f : ascii -> bool) (re : regex) : bool :=
  forallb (fun a => match a with Rep c _ => cls_within f c | _ => false end) re.

Lemma cls_within_spec f c ch :
  cls_within f c = true -> cls_match ic c ch = true -> f ch = true.
Proof.
  intros H Hc. pose proof (forall_ascii _ H ch) as Hi. simpl in Hi.
  by rewrite Hc in Hi.
Qed.

Lemma lang_within f re : forall m,
  regex_within f re = true -> lang re m -> Forall (fun ch => f ch = true) m.
Proof.
  induction re as [|a k IH]; intros m Hw Hm; simpl in *.
  - subst. constructor.
  - apply andb_prop in Hw as [Ha Hk]. destruct a as [| |c q]; try done.
    assert (Hall : forall l, Forall (fun ch => cls_match ic c ch = true) l ->
                             Forall (fun ch => f ch = true) l).
    { intros l Hl. eapply Forall_impl; [exact Hl|].
      intros ch. by apply cls_within_spec. }
    destruct q.
    + destruct Hm as (ch & m' & -> & Hc & Hm). constructor; eauto using cls_within_spec.
    + destruct Hm as (m1 & m2 & -> & Hf & Hm). apply Forall_app; eauto.
    + destruct Hm as (m1 & m2 & -> & Hf & Hm). apply Forall_app; eauto.
    + destruct Hm as (ch & m1 & m2 & -> & Hc & Hf & Hm).
      constructor; eauto using cls_within_spec. apply Forall_app; eauto.
Qed.

(** Every match of [re] has a character that satisfies [f] when some
    class of [re] that must occur lies within [f]. *)
Definition regex_needs (f : ascii -> bool) (re : regex) : bool :=
  existsb (fun a => match a with
                    | Rep c Once | Rep c Plus => cls_within f c
                    | _ => false
                    end) re.

Lemma lang_needs f re : forall m,
  anchor_free re = true -> regex_needs f re = true -> lang re m ->
  Exists (fun ch => f ch = true) m.
Proof.
  induction re as [|a k IH]; intros m Haf Hn Hm; simpl in *; [done|].
  destruct a as [| |c q]; try done.
  destruct q; simpl in Hn.
  - destruct Hm as (ch & m' & -> & Hc & Hm).
    destruct (cls_within f c) eqn:Hw.
    + apply Exists_cons_hd. eauto using cls_within_spec.
    + apply Exists_cons_tl. eauto.
  - destruct Hm as (m1 & m2 & -> & Hf & Hm). apply Exists_app. right. eauto.
  - destruct Hm as (m1 & m2 & -> & Hf & Hm). apply Exists_app. right. eauto.
  - destruct Hm as (ch & m1 & m2 & -> & Hc & Hf & Hm).
    destruct (cls_within f c) eqn:Hw.
    + apply Exists_cons_hd. eauto using cls_within_spec.
    + apply Exists_cons_tl. apply Exists_app. right. eauto.
Qed.

Lemma no_match_without f re s :
  anchor_free re = true -> regex_needs f re = true ->
  Forall (fun ch => f ch = false) s -> ~ has_match re s.
Proof.
  intros Haf Hn Hs (pre & m & post & -> & Hm).
  apply Forall_app in Hs as [_ Hs]. apply Forall_app in Hs as [Hs _].
  pose proof (lang_needs f re m Haf Hn Hm) as He.
  apply Exists_exists in He as (ch & Hin & Hch).
  rewrite Forall_forall in Hs. specialize (Hs ch Hin). congruence.
Qed.

End RegexTheory.

(** ** Escaping and stripping *)

Definition is_lt (c : ascii) : bool := Ascii.eqb c "<".

(** The characters one of which ends every match of the patterns that
    have no tag. *)
Definition call_marker (c : ascii) : bool :=
  existsb (Ascii.eqb c) [":"; "="; "("]%char.

Definition is_marker (c : ascii) : bool := is_lt c || call_marker c.

(** Neither of the two delimiters of a character reference. *)
Definition plain (c : ascii) : bool :=
  negb (Ascii.eqb c "&") && negb (Ascii.eqb c ";").

(** The characters between the delimiters of the five references. *)
Definition entity_inner (c : ascii) : bool :=
  existsb (Ascii.eqb c) (list_ascii_of_string "amplgtquo#x27").

Lemma escape_char_cases c :
  (escape_char c = [c] /\ is_lt c = false)
  \/ (exists inner, escape_char c = ("&"%char :: inner ++ [";"%char])%list
        /\ Forall (fun x => entity_inner x = true) inner).
Proof.
  unfold escape_char, is_lt.
  destruct (Ascii.eqb_spec c "&") as [->|_].
  { right. exists (list_ascii_of_string "amp"). split; [done|]. by repeat constructor. }
  destruct (Ascii.eqb_spec c "<") as [->|_].
  { right. exists (list_ascii_of_string "lt"). split; [done|]. by repeat constructor. }
  destruct (Ascii.eqb_spec c ">") as [->|_].
  { right. exists (list_ascii_of_string "gt"). split; [done|]. by repeat constructor. }
  destruct (Ascii.eqb_spec c dquote) as [->|_].
  { right. exists (list_ascii_of_string "quot"). split; [done|]. by repeat constructor. }
  destruct (Ascii.eqb_spec c "'") as [->|_].
  { right. exists (list_ascii_of_string "#x27"). split; [done|]. by repeat constructor. }
  by left.
Qed.

Lemma entity_inner_not_lt c : entity_inner c = true -> is_lt c = false.
Proof.
  pose proof (forall_ascii (fun c => implb (entity_inner c) (negb (is_lt c)))
                eq_refl c) as H.
  simpl in H. intros Hc. rewrite Hc in H. by destruct (is_lt c).
Qed.

Lemma call_marker_not_inner c : call_marker c = true -> entity_inner c = false.
Proof.
  pose proof (forall_ascii (fun c => implb (call_marker c) (negb (entity_inner c)))
                eq_refl c) as H.
  simpl in H. intros Hc. rewrite Hc in H. by destruct (entity_inner c).
Qed.

Lemma space_not_marker c : is_space c = true -> is_marker c = false.
Proof.
  pose proof (forall_ascii (fun c => implb (is_space c) (negb (is_marker c)))
                eq_refl c) as H.
  simpl in H. intros Hc. rewrite Hc in H. by destruct (is_marker c).
Qed.

Lemma space_escape_char c : is_space c = true -> escape_char c = [c].
Proof.
  pose proof (forall_ascii
    (fun c => implb (is_space c)
                (match escape_char c with [x] => Ascii.eqb x c | _ => false end))
    eq_refl c) as H.
  simpl in H. intros Hc. rewrite Hc in H. simpl in H.
  destruct (escape_char c) as [|x [|]]; try done.
  by apply Ascii.eqb_eq in H as ->.
Qed.

Lemma escape_no_lt s : Forall (fun c => is_lt c = false) (escape s).
Proof.
  induction s as [|c s IH]; simpl; [constructor|].
  apply Forall_app. split; [|done].
  destruct (escape_char_cases c) as [[-> Hc]|(inner & -> & Hi)].
  - by constructor.
  - constructor; [done|]. apply Forall_app. split.
    + eapply Forall_impl; [exact Hi|]. apply entity_inner_not_lt.
    + by constructor.
Qed.

Lemma escape_plain_prefix s : forall m post,
  escape s = (m ++ post)%list -> Forall (fun c => plain c = true) m ->
  exists s2, s = (m ++ s2)%list.
Proof.
  induction s as [|c s IH]; intros m post H Hm; simpl in H.
  - symmetry in H. apply app_eq_nil in H as [-> _]. by exists [].
  - destruct m as [|x m]; [by exists (c :: s)|].
    apply Forall_cons in Hm as [Hx Hm].
    destruct (escape_char_cases c) as [[Hc _]|(inner & Hc & _)];
      rewrite Hc in H; simpl in H; injection H as <- H.
    + destruct (IH _ _ H Hm) as [s2 ->]. by exists s2.
    + done.
Qed.

Lemma prefix_before_delim (x : ascii) (m : chars) : forall l1 l2 post,
  (l1 ++ x :: l2)%list = (m ++ post)%list -> x ∉ m ->
  exists b, l1 = (m ++ b)%list.
Proof.
  induction m as [|y m IH]; intros l1 l2 post H Hx; [by exists l1|].
  destruct l1 as [|z l1]; simpl in H; injection H as -> H.
  - exfalso. apply Hx. left.
  - destruct (IH _ _ _ H) as [b ->]; [|by exists b].
    intros Hin. apply Hx. by right.
Qed.

Lemma split_at_delim (x : ascii) (m post : chars) : forall pre l1 l2,
  (l1 ++ x :: l2)%list = (pre ++ m ++ post)%list -> x ∉ m ->
  (exists a b, l1 = (a ++ m ++ b)%list)
  \/ (exists pre', l2 = (pre' ++ m ++ post)%list).
Proof.
  induction pre as [|p pre IH]; intros l1 l2 H Hx; simpl in H.
  - left. destruct (prefix_before_delim _ _ _ _ _ H Hx) as [b ->]. by exists [], b.
  - destruct l1 as [|z l1]; simpl in H; injection H as -> H.
    + right. by exists pre.
    + destruct (IH _ _ H Hx) as [(a & b & ->)|Hr]; [|by right].
      left. by exists (p :: a), b.
Qed.

(** A substring of an escaped text that meets no delimiter of a character
    reference is a substring of the text, or lies within a reference. *)
Lemma escape_plain_sub s : forall pre m post,
  escape s = (pre ++ m ++ post)%list -> m <> [] ->
  Forall (fun c => plain c = true) m ->
  (exists pre' post', s = (pre' ++ m ++ post')%list)
  \/ Forall (fun c => entity_inner c = true) m.
Proof.
  induction s as [|c s IH]; intros pre m post H Hne Hm; simpl in H.
  - symmetry in H. apply app_eq_nil in H as [_ H]. by apply app_eq_nil in H as [-> _].
  - destruct (escape_char_cases c) as [[Hc _]|(inner & Hc & Hi)];
      rewrite Hc in H; simpl in H.
    + destruct pre as [|p pre]; simpl in H.
      * destruct m as [|x m]; [done|]. simpl in H. injection H as <- H.
        apply Forall_cons in Hm as [_ Hm].
        destruct (escape_plain_prefix _ _ _ H Hm) as [s2 ->].
        left. by exists [], s2.
      * injection H as <- H.
        destruct (IH _ _ _ H Hne Hm) as [(a & b & ->)|Hr]; [|by right].
        left. by exists (c :: a), b.
    + destruct pre as [|p pre]; simpl in H.
      * destruct m as [|x m]; [done|]. simpl in H. injection H as <- H.
        by apply Forall_cons in Hm as [Hx _].
      * injection H as <- H. rewrite <- app_assoc in H. simpl in H.
        assert (Hx : ";"%char ∉ m).
        { intros Hin. rewrite Forall_forall in Hm. by specialize (Hm _ Hin). }
        destruct (split_at_delim _ _ _ _ _ _ H Hx) as [(a & b & ->)|(pre' & Hr)].
        -- right. apply Forall_app in Hi as [_ Hi]. by apply Forall_app in Hi as [Hi _].
        -- destruct (IH _ _ _ Hr Hne Hm) as [(a & b & ->)|Hin]; [|by right].
           left. by exists (c :: a), b.
Qed.

(** A pattern every match of which has a [<], or meets no delimiter of a
    character reference and has a [call_marker]. *)
Definition escape_safe (p : regex) : bool :=
  anchor_free p
  && (regex_needs true is_lt p
      || regex_within true plain p && regex_needs true call_marker p).

Lemma escape_keeps_no_match p l :
  escape_safe p = true -> ~ has_match true p l -> ~ has_match true p (escape l).
Proof.
  unfold escape_safe. intros Hp Hl Hm.
  apply andb_prop in Hp as [Haf Hp]. apply orb_prop in Hp as [Hlt|Hp].
  - revert Hm. eapply no_match_without; eauto using escape_no_lt.
  - apply andb_prop in Hp as [Hw Hn].
    destruct Hm as (pre & m & post & He & Hm).
    pose proof (lang_within _ _ _ _ Hw Hm) as Hplain.
    pose proof (lang_needs _ _ _ _ Haf Hn Hm) as Hex.
    assert (Hne : m <> []) by (intros ->; by apply Exists_nil in Hex).
    destruct (escape_plain_sub _ _ _ _ He Hne Hplain) as [(a & b & ->)|Hin].
    + apply Hl. by exists a, m, b.
    + apply Exists_exists in Hex as (ch & Hch & Hmk).
      rewrite Forall_forall in Hin. specialize (Hin _ Hch).
      apply call_marker_not_inner in Hmk. congruence.
Qed.

Lemma lstrip_suffix s : exists a, s = (a ++ lstrip s)%list.
Proof.
  induction s as [|c s [a IH]]; simpl; [by exists []|].
  destruct (is_space c); [|by exists []].
  exists (c :: a). simpl. by rewrite <- IH.
Qed.

Lemma strip_substring s : exists a b, s = (a ++ strip s ++ b)%list.
Proof.
  unfold strip, rstrip. destruct (lstrip_suffix s) as [a Ha].
  destruct (lstrip_suffix (rev (lstrip s))) as [b Hb].
  exists a, (rev b). rewrite <- rev_app_distr, <- Hb, rev_involutive. exact Ha.
Qed.

Lemma strip_keeps_no_match ic p l :
  ~ has_match ic p l -> ~ has_match ic p (strip l).
Proof.
  intros Hl (pre & m & post & He & Hm). apply Hl.
  destruct (strip_substring l) as (a & b & Hs).
  exists (a ++ pre)%list, m, (post ++ b)%list. split; [|done].
  rewrite Hs at 1. rewrite He. by rewrite <- !app_assoc.
Qed.

Lemma lstrip_head s c r : lstrip s = c :: r -> is_space c = false.
Proof.
  induction s as [|x s IH]; simpl; [done|].
  destruct (is_space x) eqn:Hx; [done|]. by intros [= <- _].
Qed.

Lemma lstrip_id s : (forall c r, s = c :: r -> is_space c = false) -> lstrip s = s.
Proof.
  destruct s as [|c s]; [done|]. intros H. simpl. by rewrite (H c s).
Qed.

Lemma lstrip_spaces s : Forall (fun c => is_space c = true) s -> lstrip s = [].
Proof. induction 1 as [|c s Hc _ IH]; simpl; [done|]. by rewrite Hc. Qed.

(** No whitespace at either end. *)
Definition trimmed (s : chars) : Prop :=
  (forall c r, s = c :: r -> is_space c = false)
  /\ (forall r c, s = (r ++ [c])%list -> is_space c = false).

Lemma strip_trimmed s : trimmed (strip s).
Proof.
  unfold strip, rstrip. split.
  - intros c r H.
    destruct (lstrip_suffix (rev (lstrip s))) as [b Hb].
    apply (f_equal (@rev ascii)) in Hb. rewrite rev_involutive, rev_app_distr, H in Hb.
    simpl in Hb. by apply lstrip_head in Hb.
  - intros r c H. apply (f_equal (@rev ascii)) in H.
    rewrite rev_involutive, rev_app_distr in H. simpl in H.
    by apply lstrip_head in H.
Qed.

Lemma strip_of_trimmed s : trimmed s -> strip s = s.
Proof.
  intros [Hh Hl]. unfold strip, rstrip. rewrite (lstrip_id s Hh).
  rewrite lstrip_id; [apply rev_involutive|].
  intros c r H. apply (Hl (rev r)). apply (f_equal (@rev ascii)) in H.
  rewrite rev_involutive in H. by rewrite H.
Qed.

(** ** The validators *)

Import Validators.

Lemma re_search_spec ic p t :
  anchor_free p = true ->
  re_search ic p t = true <-> has_match ic p (list_ascii_of_string t).
Proof. intros Haf. by apply search_from_spec. Qed.

Lemma re_search_false ic p t :
  anchor_free p = true ->
  re_search ic p t = false <-> ~ has_match ic p (list_ascii_of_string t).
Proof.
  intros Haf. rewrite <- (re_search_spec ic p t Haf).
  by destruct (re_search ic p t).
Qed.

Lemma re_sub_no_match ic p t :
  anchor_free p = true -> ~ has_match ic p (list_ascii_of_string t) ->
  re_sub ic p t = t.
Proof.
  intros Haf H. apply re_search_false in H; [|done]. unfold re_sub.
  rewrite sub_from_no_match; [apply string_of_list_ascii_of_string|done].
Qed.

(** No match of any of the malicious patterns. *)
Definition no_malicious (l : chars) : Prop :=
  forall p, p ∈ MALICIOUS_PATTERNS -> ~ has_match true p l.

Lemma malicious_patterns_safe p :
  p ∈ MALICIOUS_PATTERNS ->
  anchor_free p = true /\ escape_safe p = true /\ regex_needs true is_marker p = true.
Proof.
  intros Hp. apply list_elem_of_In in Hp.
  assert (H : forallb (fun p => anchor_free p && escape_safe p
                                && regex_needs true is_marker p)
                MALICIOUS_PATTERNS = true) by (vm_compute; reflexivity).
  rewrite forallb_forall in H. specialize (H p Hp).
  apply andb_prop in H as [H H3]. apply andb_prop in H as [H1 H2]. auto.
Qed.

Lemma no_malicious_search t :
  existsb (fun pattern => re_search true pattern t) MALICIOUS_PATTERNS = false
  <-> no_malicious (list_ascii_of_string t).
Proof.
  split.
  - intros H p Hp. destruct (malicious_patterns_safe p Hp) as (Haf & _).
    apply re_search_false; [done|].
    destruct (re_search true p t) eqn:Hs; [|done].
    assert (existsb (fun pattern => re_search true pattern t) MALICIOUS_PATTERNS = true);
      [|congruence].
    apply existsb_exists. exists p. by rewrite <- list_elem_of_In.
  - intros H. destruct (existsb _ MALICIOUS_PATTERNS) eqn:He; [|done].
    apply existsb_exists in He as (p & Hp & Hs). apply list_elem_of_In in Hp.
    destruct (malicious_patterns_safe p Hp) as (Haf & _).
    apply re_search_spec in Hs; [|done]. by destruct (H p Hp).
Qed.

Lemma no_malicious_without_markers l :
  Forall (fun c => is_marker c = false) l -> no_malicious l.
Proof.
  intros Hl p Hp. destruct (malicious_patterns_safe p Hp) as (Haf & _ & Hn).
  by eapply no_match_without.
Qed.

Lemma foldl_re_sub_fixed (ps : list regex) t :
  (forall p, p ∈ ps -> re_sub true p t = t) ->
  foldl (fun t pattern => re_sub true pattern t) t ps = t.
Proof.
  induction ps as [|p ps IH]; intros H; simpl; [done|].
  rewrite (H p); [|left]. apply IH. intros q Hq. apply H. by right.
Qed.

(** On a text without a match of a malicious pattern, [sanitize_input]
    escapes and strips, and its result has no match either. *)
Lemma sanitize_input_clean t :
  no_malicious (list_ascii_of_string t) ->
  sanitize_input t = py_strip (html_escape t)
  /\ no_malicious (list_ascii_of_string (sanitize_input t)).
Proof.
  intros H.
  assert (He : no_malicious (list_ascii_of_string (html_escape t))).
  { intros p Hp. unfold html_escape. rewrite list_ascii_of_string_of_list_ascii.
    destruct (malicious_patterns_safe p Hp) as (_ & Hs & _).
    apply escape_keeps_no_match; auto. }
  assert (Hs : sanitize_input t = py_strip (html_escape t)).
  { unfold sanitize_input. f_equal. apply foldl_re_sub_fixed.
    intros p Hp. destruct (malicious_patterns_safe p Hp) as (Haf & _).
    apply re_sub_no_match; auto. }
  split; [done|]. rewrite Hs. intros p Hp.
  unfold py_strip. rewrite list_ascii_of_string_of_list_ascii.
  apply strip_keeps_no_match; auto.
Qed.

(** The character set [[A-Za-z0-9_-]]. *)
Definition id_char (c : ascii) : bool :=
  in_range 65 90 c || in_range 97 122 c || in_range 48 57 c
  || Ascii.eqb c "_" || Ascii.eqb c "-".

Definition id_class : cclass :=
  OneOf [("a", "z"); ("A", "Z"); ("0", "9"); ("_", "_"); ("-", "-")]%char.

Lemma id_class_spec c : cls_match false id_class c = id_char c.
Proof.
  pose proof (forall_ascii
    (fun c => Bool.eqb (cls_match false id_class c) (id_char c)) eq_refl c) as H.
  by apply Bool.eqb_prop in H.
Qed.

Lemma id_char_not_newline c : id_char c = true -> c <> newline.
Proof. intros H ->. by vm_compute in H. Qed.

Lemma id_char_not_marker c : id_char c = true \/ c = newline -> is_marker c = false.
Proof.
  pose proof (forall_ascii
    (fun c => implb (id_char c || Ascii.eqb c newline) (negb (is_marker c)))
    eq_refl c) as H. simpl in H.
  intros [Hc| ->].
  - rewrite Hc in H. simpl in H. by destruct (is_marker c).
  - done.
Qed.

Local Arguments cls_match : simpl never.

(** What [[a-zA-Z0-9_-]*$] accepts: [$] also matches before a final
    newline. *)
Definition at_end : bool -> chars -> option chars := match_here false [Eol].

Lemma at_end_spec b l :
  is_Some (at_end b l) <-> l = [] \/ l = [newline].
Proof.
  unfold at_end. destruct l as [|c [|c2 l]]; simpl.
  - split; [by left|eauto].
  - destruct (Ascii.eqb_spec c newline) as [->|Hc].
    + split; [by right|eauto].
    + split; [by intros [? ?]|]. intros [?|[= ?]]; done.
  - split; [by intros [? ?]|]. intros [?|?]; done.
Qed.

Lemma id_tail_spec l : forall b,
  is_Some (rep_greedy (cls_match false id_class) at_end b l)
  <-> Forall (fun c => id_char c = true) l
      \/ exists l0, l = (l0 ++ [newline])%list /\ Forall (fun c => id_char c = true) l0.
Proof.
  induction l as [|ch l IH]; intros b; cbn [rep_greedy].
  - rewrite at_end_spec. split; [by left|by left].
  - rewrite id_class_spec. destruct (id_char ch) eqn:Hc.
    + destruct (rep_greedy _ _ false l) as [r|] eqn:Hg.
      * split; [intros _|eauto].
        destruct (proj1 (IH false)) as [Hl|(l0 & -> & Hl)]; [by rewrite Hg| |].
        -- left. by constructor.
        -- right. exists (ch :: l0). split; [done|]. by constructor.
      * assert (Hn : ~ (Forall (fun c => id_char c = true) l
                        \/ exists l0, l = (l0 ++ [newline])%list
                             /\ Forall (fun c => id_char c = true) l0)).
        { intros H. apply (IH false) in H. rewrite Hg in H. by destruct H. }
        rewrite at_end_spec. split.
        -- intros [H|H]; [done|]. injection H as -> ->. by vm_compute in Hc.
        -- intros [H|(l0 & H & Hl0)]; exfalso; apply Hn.
           ++ left. by apply Forall_cons in H as [_ H].
           ++ destruct l0 as [|c0 l0]; simpl in H; injection H as -> H.
              ** by vm_compute in Hc.
              ** right. exists l0. split; [done|]. by apply Forall_cons in Hl0 as [_ Hl0].
    + rewrite at_end_spec. split.
      * intros [H|H]; [done|]. injection H as -> ->.
        right. exists []. split; [done|constructor].
      * intros [H|(l0 & H & Hl0)].
        -- apply Forall_cons in H as [H _]. congruence.
        -- destruct l0 as [|c0 l0]; simpl in H; injection H as -> ->.
           ++ by right.
           ++ apply Forall_cons in Hl0 as [H0 _]. congruence.
Qed.

Lemma allowed_id_pattern_spec s :
  re_match false ALLOWED_ID_PATTERN s = true
  <-> exists l0, l0 <> [] /\ Forall (fun c => id_char c = true) l0
        /\ (list_ascii_of_string s = l0
            \/ list_ascii_of_string s = (l0 ++ [newline])%list).
Proof.
  unfold re_match, ALLOWED_ID_PATTERN. fold id_class.
  generalize (list_ascii_of_string s) as l. intros l.
  cbn [match_here]. fold at_end.
  destruct l as [|ch l].
  { split; [done|]. intros (l0 & Hne & _ & [H|H]); [by subst|].
    destruct l0; discriminate. }
  rewrite id_class_spec. destruct (id_char ch) eqn:Hc.
  - pose proof (id_tail_spec l false) as Ht.
    destruct (rep_greedy _ _ false l) as [r|].
    + split; [intros _|done].
      destruct (proj1 Ht) as [Hl|(l0 & -> & Hl)]; [eauto| |].
      * exists (ch :: l). split; [done|]. split; [by constructor|by left].
      * exists (ch :: l0). split; [done|]. split; [by constructor|by right].
    + split; [done|]. intros (l0 & Hne & Hl0 & [H|H]).
      * subst l0. apply Forall_cons in Hl0 as [_ Hl0].
        destruct (proj2 Ht) as [? ?]; [by left|done].
      * destruct l0 as [|c0 l0]; [done|]. simpl in H. injection H as -> ->.
        apply Forall_cons in Hl0 as [_ Hl0].
        destruct (proj2 Ht) as [? ?]; [right; eauto|done].
  - split; [done|]. intros (l0 & Hne & Hl0 & [H|H]).
    + subst l0. apply Forall_cons in Hl0 as [H _]. congruence.
    + destruct l0 as [|c0 l0]; [done|]. simpl in H. injection H as -> ->.
      apply Forall_cons in Hl0 as [H _]. congruence.
Qed.

Lemma validate_id_format_true s e :
  validate_id_format s = (true, e) <->
  e = "" /\ s <> "" /\ String.length s <= MAX_ID_LENGTH
  /\ re_match false ALLOWED_ID_PATTERN s = true.
Proof.
  unfold validate_id_format.
  destruct (String.eqb_spec s "") as [->|Hne].
  { split; [done|]. by intros (_ & ? & _). }
  destruct (Nat.ltb_spec MAX_ID_LENGTH (String.length s)) as [Hlen|Hlen].
  { split; [done|]. intros (_ & _ & ? & _). lia. }
  destruct (re_match false ALLOWED_ID_PATTERN s); simpl.
  - split; [by intros [= <-]|by intros (-> & _)].
  - split; [done|]. by intros (_ & _ & _ & ?).
Qed.

Lemma valid_id_no_malicious s e :
  validate_id_format s = (true, e) -> no_malicious (list_ascii_of_string s).
Proof.
  intros H. apply validate_id_format_true in H as (_ & _ & _ & H).
  apply allowed_id_pattern_spec in H as (l0 & _ & Hl0 & Hs).
  apply no_malicious_without_markers.
  assert (H0 : Forall (fun c => is_marker c = false) l0).
  { eapply Forall_impl; [exact Hl0|]. intros c Hc. apply id_char_not_marker. by left. }
  destruct Hs as [-> | ->]; [done|].
  apply Forall_app. split; [done|]. by repeat constructor.
Qed.

Lemma validate_text_field_true text name max e :
  validate_text_field text name max = (true, e) <->
  e = "" /\ text <> "" /\ String.length text <= max
  /\ no_malicious (list_ascii_of_string text).
Proof.
  unfold validate_text_field. rewrite <- no_malicious_search.
  destruct (String.eqb_spec text "") as [->|Hne].
  { split; [done|]. by intros (_ & ? & _). }
  destruct (Nat.ltb_spec max (String.length text)) as [Hlen|Hlen].
  { split; [done|]. intros (_ & _ & ? & _). lia. }
  destruct (existsb _ MALICIOUS_PATTERNS).
  - split; [done|]. by intros (_ & _ & _ & ?).
  - split; [by intros [= <-]|by intros (-> & _)].
Qed.

(** X1: [validate_id_format] accepts exactly the non-empty identifiers of at
    most 100 characters made of characters of the set, and these followed
    by one newline. *)
Lemma validate_id_format_spec s :
  validate_id_format s = (true, "") <->
  s <> "" /\ String.length s <= 100
  /\ exists l0, l0 <> [] /\ Forall (fun c => id_char c = true) l0
       /\ (list_ascii_of_string s = l0 \/ list_ascii_of_string s = (l0 ++ [newline])%list).
Proof.
  rewrite validate_id_format_true, allowed_id_pattern_spec.
  unfold MAX_ID_LENGTH. tauto.
Qed.

(** C7, on the code: the identifier made of the letter a and a newline
    is accepted by [validate_id_format], though the newline is outside
    the character set; the two identifiers of the scenario are rejected. *)
Theorem validate_id_format_trailing_newline :
  validate_id_format (String "a" (String newline "")) = (true, "")
  /\ id_char newline = false
  /\ fst (validate_id_format "bad id!") = false
  /\ fst (validate_id_format (string_of_list_ascii (repeat "a"%char 101))) = false.
Proof. repeat split; vm_compute; reflexivity. Qed.

Local Arguments validate_id_format : simpl never.
Local Arguments validate_text_field : simpl never.
Local Arguments sanitize_input : simpl never.

Lemma lookup_size_nonzero (d : gmap string pyval) k v :
  d !! k = Some v -> Nat.eqb (size d) 0 = false.
Proof.
  intros H. apply Nat.eqb_neq. intros Hs. apply map_size_empty_iff in Hs.
  subst d. by rewrite lookup_empty in H.
Qed.

(** The checks made on one field in one round of the loop of
    [validate_challenge_data], and the error they report. *)
Definition challenge_field_violation (field : string) (data : gmap string pyval)
    : option string :=
  match data !! field with
  | None => Some ("Missing required field: " +:+ field)
  | Some value =>
      if negb (py_truthy value) then Some ("Empty value for field: " +:+ field)
      else if String.eqb field "playerName" then
        match validate_text_field (py_str value) field 100 with
        | (true, _) => None
        | (false, error) => Some error
        end
      else
        match validate_id_format (py_str value) with
        | (true, _) => None
        | (false, error) => Some (field +:+ ": " +:+ error)
        end
  end.

Lemma challenge_checks_step field rest d :
  field ∈ ["playerId"; "playerName"; "challengeId"] ->
  challenge_checks (field :: rest) d =
    match challenge_field_violation field d with
    | Some e => Some (false, e)
    | None => challenge_checks rest d
    end.
Proof.
  intros Hf. unfold challenge_field_violation.
  assert (Hc : field = "playerId" \/ field = "playerName" \/ field = "challengeId").
  { set_solver. }
  destruct Hc as [->|[->| ->]]; cbn; destruct (d !! _) as [v|]; try done;
    destruct (py_truthy v); cbn; try done.
  - by destruct (validate_id_format (py_str v)) as [[] e].
  - by destruct (validate_text_field (py_str v) _ 100) as [[] e].
  - by destruct (validate_id_format (py_str v)) as [[] e].
Qed.

(** C3, on the code: a payload whose [playerId] is present but malformed
    and whose [challengeId] is missing is refused for the format of
    [playerId], not for the missing field. *)
Lemma validate_challenge_data_format_before_missing :
  let d : gmap string pyval :=
    <["playerId" := PyStr "bad id!"]> (<["playerName" := PyStr "Alice"]> ∅) in
  d !! "challengeId" = None
  /\ fst (validate_challenge_data (Some d)) =
       (false, "playerId: ID contains invalid characters (only alphanumeric, underscore, and dash allowed)")
  /\ fst (validate_challenge_data (Some d)) <> (false, "Missing required field: challengeId").
Proof.
  intros d. split; [|split].
  - vm_compute. reflexivity.
  - vm_compute. reflexivity.
  - vm_compute. intros H. discriminate H.
Qed.

(** C3, amended: the checks are made field by field in declared order,
    and the error reported is the one of the first field that has a
    violation, whether it is missing, empty or malformed; when no field
    has one the payload is accepted. In particular a [playerId] that is
    present but malformed is reported whatever the later fields are. *)
Theorem validate_challenge_data_first_violation (d : gmap string pyval) :
  size d <> 0 ->
  (forall pre field post e,
     ["playerId"; "playerName"; "challengeId"] = (pre ++ field :: post)%list ->
     (forall f, f ∈ pre -> challenge_field_violation f d = None) ->
     challenge_field_violation field d = Some e ->
     validate_challenge_data (Some d) = ((false, e), Some d))
  /\ ((forall f, f ∈ ["playerId"; "playerName"; "challengeId"] ->
         challenge_field_violation f d = None) ->
      fst (validate_challenge_data (Some d)) = (true, ""))
  /\ (forall v e,
        d !! "playerId" = Some v -> py_truthy v = true ->
        validate_id_format (py_str v) = (false, e) ->
        validate_challenge_data (Some d) = ((false, "playerId: " +:+ e), Some d)).
Proof.
  intros Hsz. apply Nat.eqb_neq in Hsz.
  assert (Hfirst : forall pre field post e,
     ["playerId"; "playerName"; "challengeId"] = (pre ++ field :: post)%list ->
     (forall f, f ∈ pre -> challenge_field_violation f d = None) ->
     challenge_field_violation field d = Some e ->
     validate_challenge_data (Some d) = ((false, e), Some d)).
  { intros pre field post e Hl Hpre Hf. unfold validate_challenge_data.
    rewrite Hsz.
    destruct pre as [|f1 [|f2 [|f3 pre]]]; simpl in Hl; simplify_eq.
    - rewrite challenge_checks_step; [|set_solver]. rewrite Hf. done.
    - rewrite challenge_checks_step; [|set_solver]. rewrite (Hpre "playerId"); [|set_solver].
      rewrite challenge_checks_step; [|set_solver]. rewrite Hf. done.
    - rewrite challenge_checks_step; [|set_solver]. rewrite (Hpre "playerId"); [|set_solver].
      rewrite challenge_checks_step; [|set_solver]. rewrite (Hpre "playerName"); [|set_solver].
      rewrite challenge_checks_step; [|set_solver]. rewrite Hf. done.
    - destruct pre; discriminate. }
  split; [exact Hfirst|]. split.
  - intros Hall. unfold validate_challenge_data. rewrite Hsz.
    rewrite challenge_checks_step; [|set_solver]. rewrite (Hall "playerId"); [|set_solver].
    rewrite challenge_checks_step; [|set_solver]. rewrite (Hall "playerName"); [|set_solver].
    rewrite challenge_checks_step; [|set_solver]. rewrite (Hall "challengeId"); [|set_solver].
    done.
  - intros v e Hv Ht He.
    apply (Hfirst [] "playerId" ["playerName"; "challengeId"]); [done|set_solver|].
    unfold challenge_field_violation. rewrite Hv, Ht. cbn. by rewrite He.
Qed.

Lemma validate_challenge_data_first_violation_witness :
  let d : gmap string pyval :=
    <["playerId" := PyStr "bad id!"]> (<["playerName" := PyStr "Alice"]> ∅) in
  validate_challenge_data (Some d) =
    ((false, "playerId: ID contains invalid characters (only alphanumeric, underscore, and dash allowed)"),
     Some d).
Proof.
  intros d.
  assert (Hsz : size d <> 0) by (vm_compute; discriminate).
  destruct (validate_challenge_data_first_violation d Hsz) as (_ & _ & H).
  apply (H (PyStr "bad id!")); vm_compute; reflexivity.
Defined.

Lemma list_ascii_of_string_app s1 s2 :
  list_ascii_of_string (s1 +:+ s2)
  = (list_ascii_of_string s1 ++ list_ascii_of_string s2)%list.
Proof. induction s1 as [|c s1 IH]; simpl; [done|]. by rewrite IH. Qed.

Lemma string_length_list s : String.length s = length (list_ascii_of_string s).
Proof. induction s as [|c s IH]; simpl; [done|]. by rewrite IH. Qed.

Definition SCRIPT_ALERT : string := "<script>alert(1)</script>".

Lemma script_alert_is_malicious pre post :
  existsb (fun pattern => re_search true pattern (pre +:+ SCRIPT_ALERT +:+ post))
    MALICIOUS_PATTERNS = true.
Proof.
  apply existsb_exists.
  exists (nth 0 MALICIOUS_PATTERNS []). split; [by left|].
  apply re_search_spec; [done|].
  rewrite !list_ascii_of_string_app.
  exists (list_ascii_of_string pre), (list_ascii_of_string SCRIPT_ALERT),
    (list_ascii_of_string post). split; [done|].
  assert (Hm : match_here true (nth 0 MALICIOUS_PATTERNS []) true
                 (list_ascii_of_string SCRIPT_ALERT) = Some [])
    by (vm_compute; reflexivity).
  apply match_here_sound in Hm as (m & Hs & Hl); [|done].
  rewrite app_nil_r in Hs. by rewrite Hs.
Qed.

(** With well-formed identifiers, the verdict of
    [validate_submission_data] is the one of [validate_text_field] on the
    submission text. *)
Lemma validate_submission_data_text (d : gmap string pyval) pid cid v :
  d !! "playerId" = Some pid -> d !! "challengeId" = Some cid ->
  py_truthy pid = true -> py_truthy cid = true ->
  validate_id_format (py_str pid) = (true, "") ->
  validate_id_format (py_str cid) = (true, "") ->
  d !! "submissionText" = Some v -> py_truthy v = true ->
  validate_submission_data (Some d) =
    match validate_text_field (py_str v) "submissionText" 5000 with
    | (true, _) =>
        ((true, ""), Some (sanitize_fields ["playerId"; "challengeId"; "submissionText"] d))
    | (false, e) => ((false, e), Some d)
    end.
Proof.
  intros Hp Hc Htp Htc Hvp Hvc Hv Htv. unfold validate_submission_data.
  rewrite (lookup_size_nonzero d _ _ Hp). cbn [submission_checks].
  rewrite Hp, Hc, Hv, Htp, Htc, Htv. cbn. rewrite Hvp, Hvc. cbn.
  by destruct (validate_text_field (py_str v) "submissionText" 5000) as [[] e].
Qed.

(** C8, on the code: a submission text that holds the script and is
    longer than 5000 characters is refused by the length check; the
    malicious-pattern check is not reached. *)
Lemma validate_submission_data_long_script :
  let text := SCRIPT_ALERT +:+ string_of_list_ascii (repeat "a"%char 4990) in
  let d : gmap string pyval :=
    <["playerId" := PyStr "P1"]> (<["challengeId" := PyStr "C01"]>
      (<["submissionText" := PyStr text]> ∅)) in
  fst (validate_submission_data (Some d))
    = (false, "submissionText too long (max 5000 characters)")
  /\ fst (validate_submission_data (Some d))
    <> (false, "submissionText contains potentially malicious content").
Proof.
  intros text d.
  assert (H : fst (validate_submission_data (Some d))
              = (false, "submissionText too long (max 5000 characters)"))
    by (vm_compute; reflexivity).
  split; [exact H|]. rewrite H. intros H'. discriminate H'.
Qed.

(** C8, amended: with well-formed identifiers, a submission text of at
    most 5000 characters that holds the script is refused by the
    malicious-pattern check and the payload is left as it was; a text that
    holds the script is refused whatever its length; and the text is
    checked by [validate_text_field] with the bound 5000 only, no
    identifier pattern being applied to it. *)
Theorem validate_submission_data_script_rejected (d : gmap string pyval) pid cid :
  d !! "playerId" = Some pid -> d !! "challengeId" = Some cid ->
  py_truthy pid = true -> py_truthy cid = true ->
  validate_id_format (py_str pid) = (true, "") ->
  validate_id_format (py_str cid) = (true, "") ->
  (forall pre post,
     d !! "submissionText" = Some (PyStr (pre +:+ SCRIPT_ALERT +:+ post)) ->
     String.length (pre +:+ SCRIPT_ALERT +:+ post) <= 5000 ->
     validate_submission_data (Some d)
     = ((false, "submissionText contains potentially malicious content"), Some d))
  /\ (forall pre post,
        d !! "submissionText" = Some (PyStr (pre +:+ SCRIPT_ALERT +:+ post)) ->
        fst (fst (validate_submission_data (Some d))) = false
        /\ snd (validate_submission_data (Some d)) = Some d)
  /\ (forall v,
        d !! "submissionText" = Some v -> py_truthy v = true ->
        fst (validate_submission_data (Some d))
        = validate_text_field (py_str v) "submissionText" 5000).
Proof.
  intros Hp Hc Htp Htc Hvp Hvc.
  assert (Hne : forall pre post, String.eqb (pre +:+ SCRIPT_ALERT +:+ post) "" = false).
  { intros pre post. apply String.eqb_neq. intros H.
    apply (f_equal list_ascii_of_string) in H.
    rewrite !list_ascii_of_string_app in H. by destruct (list_ascii_of_string pre). }
  assert (Htruthy : forall pre post, py_truthy (PyStr (pre +:+ SCRIPT_ALERT +:+ post)) = true).
  { intros pre post. simpl. by rewrite Hne. }
  split; [|split].
  - intros pre post Hv Hlen.
    rewrite (validate_submission_data_text d pid cid _ Hp Hc Htp Htc Hvp Hvc Hv (Htruthy _ _)).
    unfold validate_text_field. simpl py_str. rewrite Hne.
    apply Nat.ltb_ge in Hlen. rewrite Hlen.
    by rewrite script_alert_is_malicious.
  - intros pre post Hv.
    rewrite (validate_submission_data_text d pid cid _ Hp Hc Htp Htc Hvp Hvc Hv (Htruthy _ _)).
    unfold validate_text_field. simpl py_str. rewrite Hne.
    destruct (Nat.ltb 5000 _); [done|].
    by rewrite script_alert_is_malicious.
  - intros v Hv Htv.
    rewrite (validate_submission_data_text d pid cid v Hp Hc Htp Htc Hvp Hvc Hv Htv).
    destruct (validate_text_field (py_str v) "submissionText" 5000) as [[] e] eqn:He;
      [|done].
    by apply validate_text_field_true in He as (-> & _).
Qed.

Lemma validate_submission_data_script_rejected_witness :
  let d : gmap string pyval :=
    <["playerId" := PyStr "P1"]> (<["challengeId" := PyStr "C01"]>
      (<["submissionText" := PyStr ("see " +:+ SCRIPT_ALERT +:+ " here")]> ∅)) in
  validate_submission_data (Some d)
  = ((false, "submissionText contains potentially malicious content"), Some d).
Proof.
  intros d.
  assert (H := validate_submission_data_script_rejected d (PyStr "P1") (PyStr "C01")
                 eq_refl eq_refl eq_refl eq_refl eq_refl eq_refl).
  destruct H as (H & _).
  apply (H "see " " here"); [reflexivity|vm_compute; lia].
Defined.

(** *** The sanitized payload *)

Lemma sanitize_fields_other fields : forall (d : gmap string pyval) f,
  f ∉ fields -> sanitize_fields fields d !! f = d !! f.
Proof.
  unfold sanitize_fields.
  induction fields as [|g fields IH]; intros d f Hf; simpl; [done|].
  apply not_elem_of_cons in Hf as [Hne Hf]. rewrite IH by done.
  destruct (d !! g); [|done]. by rewrite lookup_insert_ne.
Qed.

Lemma sanitize_fields_lookup fields : forall (d : gmap string pyval) f v,
  NoDup fields -> f ∈ fields -> d !! f = Some v ->
  sanitize_fields fields d !! f = Some (PyStr (sanitize_input (py_str v))).
Proof.
  induction fields as [|g fields IH]; intros d f v Hnd Hf Hv; [by apply elem_of_nil in Hf|].
  apply NoDup_cons in Hnd as [Hg Hnd].
  change (sanitize_fields (g :: fields) d) with
    (sanitize_fields fields
       match d !! g with
       | Some value => <[g := PyStr (sanitize_input (py_str value))]> d
       | None => d
       end).
  destruct (decide (f = g)) as [->|Hne].
  - rewrite sanitize_fields_other by done. rewrite Hv. by rewrite lookup_insert_eq.
  - apply elem_of_cons in Hf as [?|Hf]; [done|].
    apply IH; [done|done|]. destruct (d !! g); [|done]. by rewrite lookup_insert_ne.
Qed.

Lemma challenge_field_ok_inv f (d : gmap string pyval) :
  challenge_field_violation f d = None ->
  exists v, d !! f = Some v /\ py_truthy v = true
    /\ no_malicious (list_ascii_of_string (py_str v)).
Proof.
  unfold challenge_field_violation. destruct (d !! f) as [v|]; [|done].
  destruct (py_truthy v) eqn:Ht; [|done]. cbn [negb].
  intros H. exists v. split; [done|]. split; [done|].
  destruct (String.eqb f "playerName").
  - destruct (validate_text_field (py_str v) f 100) as [[] e] eqn:He; [|done].
    by apply validate_text_field_true in He as (_ & _ & _ & He).
  - destruct (validate_id_format (py_str v)) as [[] e] eqn:He; [|done].
    by apply valid_id_no_malicious in He.
Qed.

Lemma validate_challenge_data_accept_inv (d : gmap string pyval) e o :
  validate_challenge_data (Some d) = ((true, e), o) ->
  e = "" /\ o = Some (sanitize_fields ["playerId"; "playerName"; "challengeId"] d)
  /\ forall f, f ∈ ["playerId"; "playerName"; "challengeId"] ->
       challenge_field_violation f d = None.
Proof.
  unfold validate_challenge_data. destruct (Nat.eqb (size d) 0); [done|].
  rewrite challenge_checks_step by set_solver.
  destruct (challenge_field_violation "playerId" d) eqn:H1; [done|].
  rewrite challenge_checks_step by set_solver.
  destruct (challenge_field_violation "playerName" d) eqn:H2; [done|].
  rewrite challenge_checks_step by set_solver.
  destruct (challenge_field_violation "challengeId" d) eqn:H3; [done|].
  cbn [challenge_checks]. intros [= <- <-]. split; [done|]. split; [done|].
  intros f Hf. set_unfold in Hf. by destruct Hf as [->|[->|[->|[]]]].
Qed.

(** C4: a payload accepted by [validate_challenge_data] is left with each
    of its three fields replaced by [sanitize_input] of its text, which is
    this text HTML-escaped and stripped, and in which no malicious pattern
    has a match. *)
Theorem validate_challenge_data_neutralizes (d : gmap string pyval) e o :
  validate_challenge_data (Some d) = ((true, e), o) ->
  exists d', o = Some d' /\
    forall f, f ∈ ["playerId"; "playerName"; "challengeId"] ->
      exists v, d !! f = Some v
        /\ d' !! f = Some (PyStr (sanitize_input (py_str v)))
        /\ sanitize_input (py_str v) = py_strip (html_escape (py_str v))
        /\ forall pattern, pattern ∈ MALICIOUS_PATTERNS ->
             re_search true pattern (sanitize_input (py_str v)) = false.
Proof.
  intros H. apply validate_challenge_data_accept_inv in H as (-> & -> & Hok).
  eexists. split; [done|]. intros f Hf.
  destruct (challenge_field_ok_inv f d (Hok f Hf)) as (v & Hv & _ & Hclean).
  exists v. split; [done|]. split.
  { apply sanitize_fields_lookup; [|done|done].
    apply NoDup_ListNoDup. repeat constructor; set_solver. }
  destruct (sanitize_input_clean _ Hclean) as [Heq Hno]. split; [done|].
  intros p Hp. destruct (malicious_patterns_safe p Hp) as (Haf & _).
  apply re_search_false; auto.
Qed.

Lemma validate_challenge_data_neutralizes_witness :
  let d : gmap string pyval :=
    <["playerId" := PyInt 12345]> (<["playerName" := PyStr " <b>Al</b> & co "]>
      (<["challengeId" := PyStr "C01"]> ∅)) in
  exists d', snd (validate_challenge_data (Some d)) = Some d'
    /\ d' !! "playerName" = Some (PyStr "&lt;b&gt;Al&lt;/b&gt; &amp; co")
    /\ forall pattern, pattern ∈ MALICIOUS_PATTERNS ->
         re_search true pattern "&lt;b&gt;Al&lt;/b&gt; &amp; co" = false.
Proof.
  intros d.
  destruct (validate_challenge_data_neutralizes d ""
              (snd (validate_challenge_data (Some d))))
    as (d' & Hd' & Hf); [vm_compute; reflexivity|].
  exists d'. split; [exact Hd'|].
  destruct (Hf "playerName") as (v & Hv & Hs & _ & Hno);
    [apply list_elem_of_In; simpl; tauto|].
  assert (v = PyStr " <b>Al</b> & co ") as -> by (vm_compute in Hv; congruence).
  assert (Hsan : sanitize_input (py_str (PyStr " <b>Al</b> & co "))
                 = "&lt;b&gt;Al&lt;/b&gt; &amp; co") by (vm_compute; reflexivity).
  rewrite Hsan in Hs, Hno. split; [exact Hs|exact Hno].
Defined.

Lemma escape_spaces l : Forall (fun c => is_space c = true) l -> escape l = l.
Proof.
  induction 1 as [|c l Hc _ IH]; simpl; [done|].
  by rewrite (space_escape_char c Hc), IH.
Qed.

(** C9: a [playerName] made of whitespace only passes the checks of
    [validate_challenge_data] and is stored as the empty string; and the
    result of [sanitize_input] never starts or ends with whitespace. *)
Theorem whitespace_field_sanitized_to_empty :
  (forall (d : gmap string pyval) pid cid ws,
     d !! "playerId" = Some pid -> d !! "challengeId" = Some cid ->
     py_truthy pid = true -> py_truthy cid = true ->
     validate_id_format (py_str pid) = (true, "") ->
     validate_id_format (py_str cid) = (true, "") ->
     d !! "playerName" = Some (PyStr ws) ->
     ws <> "" -> String.length ws <= 100 ->
     Forall (fun c => is_space c = true) (list_ascii_of_string ws) ->
     exists d', validate_challenge_data (Some d) = ((true, ""), Some d')
       /\ d' !! "playerName" = Some (PyStr ""))
  /\ (forall t, trimmed (list_ascii_of_string (sanitize_input t))
                /\ py_strip (sanitize_input t) = sanitize_input t).
Proof.
  split.
  - intros d pid cid ws Hp Hc Htp Htc Hvp Hvc Hn Hne Hlen Hws.
    assert (Hclean : no_malicious (list_ascii_of_string ws)).
    { apply no_malicious_without_markers.
      eapply Forall_impl; [exact Hws|]. apply space_not_marker. }
    assert (Htext : validate_text_field ws "playerName" 100 = (true, "")).
    { by apply validate_text_field_true. }
    assert (Htn : py_truthy (PyStr ws) = true).
    { simpl. by apply String.eqb_neq in Hne as ->. }
    exists (sanitize_fields ["playerId"; "playerName"; "challengeId"] d). split.
    + unfold validate_challenge_data. rewrite (lookup_size_nonzero d _ _ Hp).
      cbn [challenge_checks]. rewrite Hp, Hn, Hc, Htp, Htn, Htc. cbn.
      rewrite Hvp, Hvc, Htext. cbn. reflexivity.
    + rewrite (sanitize_fields_lookup _ d "playerName" (PyStr ws)); [|
        apply NoDup_ListNoDup; repeat constructor; set_solver|set_solver|done].
      do 2 f_equal. cbn [py_str].
      rewrite (proj1 (sanitize_input_clean ws Hclean)).
      unfold py_strip, html_escape. rewrite list_ascii_of_string_of_list_ascii.
      rewrite (escape_spaces _ Hws). unfold strip. by rewrite (lstrip_spaces _ Hws).
  - intros t.
    assert (Hs : exists l, sanitize_input t = string_of_list_ascii (strip l)).
    { unfold sanitize_input, py_strip. eauto. }
    destruct Hs as [l ->]. rewrite list_ascii_of_string_of_list_ascii.
    split; [apply strip_trimmed|].
    unfold py_strip. rewrite list_ascii_of_string_of_list_ascii.
    by rewrite (strip_of_trimmed _ (strip_trimmed l)).
Qed.

Lemma whitespace_field_sanitized_to_empty_witness :
  let d : gmap string pyval :=
    <["playerId" := PyStr "P1"]> (<["playerName" := PyStr " "]>
      (<["challengeId" := PyStr "C01"]> ∅)) in
  exists d', validate_challenge_data (Some d) = ((true, ""), Some d')
    /\ d' !! "playerName" = Some (PyStr "").
Proof.
  intros d.
  apply (proj1 whitespace_field_sanitized_to_empty d (PyStr "P1") (PyStr "C01") " ");
    try reflexivity.
  - discriminate.
  - simpl. lia.
  - repeat constructor.
Defined.

(** ** The store client *)

Import Sheets.

(** The spreadsheet can be reached: a handle is cached or can be had. *)
Definition reachable (w : World) : bool := sheet_handle w || can_connect w.

(** The [n]-th forthcoming call of the API does not raise. *)
Definition call_ok (n : nat) (w : World) : Prop := outcomes w !! n <> Some false.

(** The record at index [i] is the matching record nearest the end. *)
Definition last_match (player_id challenge_id : pyval)
    (records : list (gmap string pyval)) (i : nat) (r : gmap string pyval) : Prop :=
  records !! i = Some r /\ row_matches player_id challenge_id r = true
  /\ forall j r', i < j -> records !! j = Some r' ->
       row_matches player_id challenge_id r' = false.

Definition no_match (player_id challenge_id : pyval)
    (records : list (gmap string pyval)) : Prop :=
  forall r, r ∈ records -> row_matches player_id challenge_id r = false.




Lemma find_matching_row_skip pid cid records m : forall n,
  m <= n ->
  (forall j r, m <= j < n -> records !! j = Some r -> row_matches pid cid r = false) ->
  find_matching_row pid cid records n = find_matching_row pid cid records m.
Proof.
  induction n as [|n IH]; intros Hle H.
  - by replace m with 0 by lia.
  - destruct (decide (m = S n)) as [->|Hne]; [done|].
    simpl. destruct (records !! n) as [r|] eqn:Hr.
    + rewrite (H n r) by (done || lia). apply IH; [lia|].
      intros j r' Hj. apply H. lia.
    + apply IH; [lia|]. intros j r' Hj. apply H. lia.
Qed.

Lemma find_matching_row_last pid cid records i r :
  last_match pid cid records i r ->
  find_matching_row pid cid records (length records) = Some (i + 2).
Proof.
  intros (Hi & Hm & Hafter).
  rewrite (find_matching_row_skip pid cid records (S i)).
  - simpl. by rewrite Hi, Hm.
  - apply lookup_lt_Some in Hi. lia.
  - intros j r' Hj. apply Hafter. lia.
Qed.

Lemma find_matching_row_none pid cid records :
  no_match pid cid records ->
  find_matching_row pid cid records (length records) = None.
Proof.
  intros H. rewrite (find_matching_row_skip pid cid records 0); [done|lia|].
  intros j r _ Hj. apply H. by apply list_elem_of_lookup_2 in Hj.
Qed.

Lemma find_matching_row_some pid cid records : forall n row,
  find_matching_row pid cid records n = Some row ->
  exists i r, row = i + 2 /\ i < n /\ records !! i = Some r
    /\ row_matches pid cid r = true
    /\ forall j r', i < j < n -> records !! j = Some r' ->
         row_matches pid cid r' = false.
Proof.
  induction n as [|n IH]; intros row H; simpl in H; [done|].
  destruct (records !! n) as [r|] eqn:Hr.
  - destruct (row_matches pid cid r) eqn:Hm.
    + injection H as <-. exists n, r.
      split; [done|]. split; [lia|]. split; [done|]. split; [done|].
      intros j r' Hj. lia.
    + destruct (IH _ H) as (i & r0 & -> & Hi & Hr0 & Hm0 & Hafter).
      exists i, r0.
      split; [done|]. split; [lia|]. split; [done|]. split; [done|].
      intros j r' Hj Hj'.
      destruct (decide (j = n)) as [->|Hne]; [congruence|].
      apply (Hafter j); [lia|done].
  - destruct (IH _ H) as (i & r0 & -> & Hi & Hr0 & Hm0 & Hafter).
    exists i, r0.
      split; [done|]. split; [lia|]. split; [done|]. split; [done|].
      intros j r' Hj Hj'.
    destruct (decide (j = n)) as [->|Hne]; [congruence|].
    apply (Hafter j); [lia|done].
Qed.

(** Either some record is the last match, or none matches. *)
Lemma last_match_or_none pid cid records :
  (exists i r, last_match pid cid records i r) \/ no_match pid cid records.
Proof.
  destruct (find_matching_row pid cid records (length records)) as [row|] eqn:H.
  - left. apply find_matching_row_some in H as (i & r & _ & Hi & Hr & Hm & Hafter).
    exists i, r. split; [done|]. split; [done|]. intros j r' Hj Hr'.
    apply (Hafter j); [|done]. apply lookup_lt_Some in Hr'. lia.
  - right. intros r Hr. destruct (row_matches pid cid r) eqn:Hm; [|done].
    apply list_elem_of_lookup in Hr as [i Hi].
    assert (Hex : exists row, find_matching_row pid cid records (length records) = Some row);
      [|destruct Hex; congruence].
    clear H. apply lookup_lt_Some in Hi as Hlt.
    generalize dependent (length records). intros n.
    induction n as [|n IH]; intros Hlt; [lia|]. simpl.
    destruct (decide (i = n)) as [->|Hne].
    + rewrite Hi, Hm. eauto.
    + destruct (records !! n) as [r'|]; [destruct (row_matches pid cid r'); eauto|];
        apply IH; lia.
Qed.

(** *** Reading the worksheet *)

Definition connected (w : World) : World :=
  if sheet_handle w then w else set_handle true w.

Lemma get_worksheet_eq name w :
  get_worksheet name w =
    if reachable w then
      (Ok (if worksheets w !! name then Some name else None), connected w)
    else (Ok None, w).
Proof.
  unfold get_worksheet, reachable, connected, run, connect.
  destruct (sheet_handle w) eqn:Hh; cbn.
  - by destruct (worksheets w !! name).
  - destruct (can_connect w); cbn; [|done]. by destruct (worksheets w !! name).
Qed.

Lemma get_player_status_eq pid cid w :
  get_player_status pid cid w =
    if reachable w then
      match worksheets w !! playerlog_sheet with
      | None => (None, connected w)
      | Some g =>
          match outcomes w with
          | false :: o => (None, set_outcomes o (connected w))
          | true :: o =>
              (first_match pid cid (rev (records_of g)), set_outcomes o (connected w))
          | [] => (first_match pid cid (rev (records_of g)), connected w)
          end
      end
    else (None, w).
Proof.
  unfold get_player_status, run, try_except, bind. rewrite get_worksheet_eq.
  destruct (reachable w); [|done].
  destruct (worksheets w !! playerlog_sheet) as [g|] eqn:Hg; [|done].
  unfold get_all_records, bind, api_call, ret.
  assert (Ho : outcomes (connected w) = outcomes w)
    by (unfold connected; by destruct (sheet_handle w)).
  assert (Hw : worksheets (connected w) = worksheets w)
    by (unfold connected; by destruct (sheet_handle w)).
  rewrite Ho. destruct (outcomes w) as [|[] o]; cbn; rewrite ?Hw, ?Hg; cbn;
    try done; by destruct (records_of g).
Qed.



(** *** A sample log table *)

Definition PLAYERLOG_HEADER : list pyval :=
  map PyStr ["Timestamp"; "PlayerID"; "PlayerName"; "ChallengeID"; "Status";
             "SubmissionText"].

Definition sample_log : list (list pyval) :=
  [ PLAYERLOG_HEADER;
    [PyStr "2024-05-01 10:00:00"; PyInt 1; PyStr "Alice"; PyStr "C01";
     PyStr "Received"; PyStr ""];
    [PyStr "2024-05-01 10:05:00"; PyInt 2; PyStr "Bob"; PyStr "C01";
     PyStr "Received"; PyStr ""];
    [PyStr "2024-04-30 09:00:00"; PyStr "1"; PyStr "Alice"; PyStr "C01";
     PyStr "In Progress"; PyStr ""] ].

Definition sample_world : World :=
  mkWorld true false (<[playerlog_sheet := sample_log]> ∅) []
    (fun n => "2024-05-02 08:00:0" +:+ pretty n) 0.


(** *** The calls of the API, step by step *)

(** The world once the next outcome is consumed. *)
Definition pop (w : World) : World :=
  match outcomes w with
  | [] => w
  | _ :: o => set_outcomes o w
  end.

Lemma pop_worksheets w : worksheets (pop w) = worksheets w.
Proof. unfold pop. by destruct (outcomes w). Qed.

Lemma pop_outcomes w : outcomes (pop w) = tail (outcomes w).
Proof. unfold pop. destruct (outcomes w) eqn:H; [by rewrite H|done]. Qed.

Lemma pop_reachable w : reachable (pop w) = reachable w.
Proof. unfold pop, reachable. by destruct (outcomes w). Qed.

Lemma connected_worksheets w : worksheets (connected w) = worksheets w.
Proof. unfold connected. by destruct (sheet_handle w). Qed.

Lemma connected_outcomes w : outcomes (connected w) = outcomes w.
Proof. unfold connected. by destruct (sheet_handle w). Qed.

Lemma connected_reachable w : reachable w = true -> reachable (connected w) = true.
Proof.
  unfold connected, reachable. destruct (sheet_handle w) eqn:H; [|done].
  by rewrite H.
Qed.

Lemma connected_clock w :
  clock (connected w) = clock w /\ ticks (connected w) = ticks w.
Proof. unfold connected. by destruct (sheet_handle w). Qed.

Lemma call_ok_pop n w : call_ok (S n) w <-> call_ok n (pop w).
Proof. unfold call_ok. by rewrite pop_outcomes, lookup_tail. Qed.

Lemma call_ok_connected n w : call_ok n (connected w) <-> call_ok n w.
Proof. unfold call_ok. by rewrite connected_outcomes. Qed.

Lemma api_call_ok w : call_ok 0 w -> api_call w = (Ok tt, pop w).
Proof. unfold call_ok, api_call, pop. by destruct (outcomes w) as [|[] o]. Qed.

Lemma api_call_raises w :
  outcomes w !! 0 = Some false -> api_call w = (Raised, pop w).
Proof. unfold api_call, pop. by destruct (outcomes w) as [|[] o]. Qed.

Lemma call_ok_dec n w : call_ok n w \/ outcomes w !! n = Some false.
Proof.
  unfold call_ok. destruct (outcomes w !! n) as [[]|]; [left|right|left]; done.
Qed.

Lemma bind_ok {A B} (m : M A) (f : A -> M B) w a w' :
  m w = (Ok a, w') -> bind m f w = f a w'.
Proof. unfold bind. by intros ->. Qed.

Lemma bind_raised {A B} (m : M A) (f : A -> M B) w w' :
  m w = (Raised, w') -> bind m f w = (Raised, w').
Proof. unfold bind. by intros ->. Qed.

Lemma get_all_records_ok name w g :
  call_ok 0 w -> worksheets w !! name = Some g ->
  get_all_records name w = (Ok (records_of g), pop w).
Proof.
  intros Hok Hg. unfold get_all_records.
  rewrite (bind_ok _ _ _ _ _ (api_call_ok w Hok)).
  by rewrite pop_worksheets, Hg.
Qed.

Lemma get_all_records_raises name w :
  outcomes w !! 0 = Some false -> get_all_records name w = (Raised, pop w).
Proof.
  intros H. unfold get_all_records. by rewrite (bind_raised _ _ _ _ (api_call_raises w H)).
Qed.

Lemma append_row_ok name row w g :
  call_ok 0 w -> worksheets w !! name = Some g ->
  append_row name row w
  = (Ok tt, set_worksheets (<[name := (g ++ [row])%list]> (worksheets w)) (pop w)).
Proof.
  intros Hok Hg. unfold append_row.
  rewrite (bind_ok _ _ _ _ _ (api_call_ok w Hok)).
  by rewrite pop_worksheets, Hg.
Qed.

Lemma append_row_raises name row w :
  outcomes w !! 0 = Some false -> append_row name row w = (Raised, pop w).
Proof.
  intros H. unfold append_row. by rewrite (bind_raised _ _ _ _ (api_call_raises w H)).
Qed.

Lemma update_cell_ok name r c v w g cells :
  call_ok 0 w -> worksheets w !! name = Some g ->
  g !! r = Some cells -> c < length cells ->
  update_cell name (S r) (S c) v w
  = (Ok tt, set_worksheets (<[name := <[r := <[c := v]> cells]> g]> (worksheets w))
              (pop w)).
Proof.
  intros Hok Hg Hr Hc. unfold update_cell.
  rewrite (bind_ok _ _ _ _ _ (api_call_ok w Hok)).
  rewrite pop_worksheets, Hg, Hr.
  by apply Nat.ltb_lt in Hc as ->.
Qed.

Lemma update_cell_raises name r c v w :
  outcomes w !! 0 = Some false -> update_cell name r c v w = (Raised, pop w).
Proof.
  intros H. unfold update_cell. by rewrite (bind_raised _ _ _ _ (api_call_raises w H)).
Qed.

(** *** [log_challenge] *)

(** The row written by [log_challenge] at the time [ts]. *)
Definition log_row (ts : string) (player_id player_name challenge_id status
    submission_text : pyval) : list pyval :=
  [PyStr ts; PyStr (py_str player_id); PyStr (py_str player_name);
   PyStr (py_str challenge_id); status; submission_text].

(** One call of [log_challenge]: it returns [true] and the table has the
    new row at its end, or it returns [false] and no worksheet changed. *)
Lemma log_challenge_step pid name cid st text w b w' :
  log_challenge pid name cid st text w = (b, w') ->
  (b = true /\ exists g,
     worksheets w !! playerlog_sheet = Some g
     /\ worksheets w' !! playerlog_sheet
        = Some (g ++ [log_row (clock w (ticks w)) pid name cid st text])%list)
  \/ (b = false /\ worksheets w' = worksheets w).
Proof.
  unfold log_challenge, run, try_except. unfold bind at 1.
  rewrite get_worksheet_eq. destruct (reachable w) eqn:Hr.
  2:{ intros [= <- <-]. by right. }
  destruct (worksheets w !! playerlog_sheet) as [g|] eqn:Hg.
  2:{ intros [= <- <-]. right. by rewrite connected_worksheets. }
  unfold bind at 1. unfold datetime_now.
  destruct (connected_clock w) as [-> ->].
  set (w1 := set_ticks (S (ticks w)) (connected w)).
  assert (Hw1 : worksheets w1 = worksheets w) by apply connected_worksheets.
  destruct (call_ok_dec 0 w1) as [Hok|Hbad].
  - rewrite (bind_ok _ _ _ _ _ (append_row_ok _ _ w1 g Hok ltac:(by rewrite Hw1))).
    intros [= <- <-]. left. split; [done|]. exists g. split; [done|].
    cbn [worksheets set_worksheets]. apply lookup_insert_eq.
  - rewrite (bind_raised _ _ _ _ (append_row_raises _ _ w1 Hbad)).
    intros [= <- <-]. right. split; [done|]. by rewrite pop_worksheets.
Qed.

Lemma log_challenge_succeeds pid name cid st text w g :
  reachable w = true -> worksheets w !! playerlog_sheet = Some g -> call_ok 0 w ->
  exists w', log_challenge pid name cid st text w = (true, w')
    /\ reachable w' = true /\ outcomes w' = tail (outcomes w).
Proof.
  intros Hr Hg Hok.
  unfold log_challenge, run, try_except. unfold bind at 1.
  rewrite get_worksheet_eq, Hr, Hg. unfold bind at 1. unfold datetime_now.
  set (w1 := set_ticks _ (connected w)).
  assert (Hw1 : worksheets w1 = worksheets w) by apply connected_worksheets.
  assert (Hok1 : call_ok 0 w1).
  { unfold call_ok, w1. cbn [outcomes set_ticks]. rewrite connected_outcomes. exact Hok. }
  rewrite (bind_ok _ _ _ _ _ (append_row_ok _ _ w1 g Hok1 ltac:(by rewrite Hw1))).
  eexists. split; [reflexivity|]. split.
  - change (reachable (pop w1) = true). rewrite pop_reachable.
    change (reachable (connected w) = true). by apply connected_reachable.
  - cbn [outcomes set_worksheets]. rewrite pop_outcomes. unfold w1.
    cbn [outcomes set_ticks]. by rewrite connected_outcomes.
Qed.

(** C5: two successive successful calls of [log_challenge] with the same
    arguments leave the table with two more rows, the rows it had being
    kept as they were; and no call of [log_challenge] changes a row that
    the table has. *)
Theorem log_challenge_never_idempotent pid name cid st text w b1 w1 b2 w2 :
  log_challenge pid name cid st text w = (b1, w1) ->
  log_challenge pid name cid st text w1 = (b2, w2) ->
  (b1 = true -> b2 = true ->
   exists g t1 t2,
     worksheets w !! playerlog_sheet = Some g
     /\ worksheets w2 !! playerlog_sheet
        = Some (g ++ [log_row t1 pid name cid st text;
                      log_row t2 pid name cid st text])%list
     /\ length (g ++ [log_row t1 pid name cid st text;
                      log_row t2 pid name cid st text])%list = length g + 2)
  /\ (forall g, worksheets w !! playerlog_sheet = Some g ->
        exists more, worksheets w2 !! playerlog_sheet = Some (g ++ more)%list
          /\ forall i row, g !! i = Some row -> (g ++ more)%list !! i = Some row).
Proof.
  intros H1 H2.
  apply log_challenge_step in H1. apply log_challenge_step in H2. split.
  - intros -> ->.
    destruct H1 as [(_ & g & Hg & Hg1)|[? _]]; [|done].
    destruct H2 as [(_ & g1 & Hg1' & Hg2)|[? _]]; [|done].
    rewrite Hg1 in Hg1'. injection Hg1' as <-.
    exists g, (clock w (ticks w)), (clock w1 (ticks w1)).
    split; [done|]. rewrite <- app_assoc in Hg2. split; [exact Hg2|].
    rewrite length_app. simpl. lia.
  - intros g Hg.
    assert (Hpre : exists more, worksheets w2 !! playerlog_sheet = Some (g ++ more)%list).
    { destruct H1 as [(_ & g0 & Hg0 & Hg1)|[_ Hw1]].
      - rewrite Hg in Hg0. injection Hg0 as <-.
        destruct H2 as [(_ & g1 & Hg1' & Hg2)|[_ Hw2]].
        + rewrite Hg1 in Hg1'. injection Hg1' as <-.
          rewrite <- app_assoc in Hg2. eauto.
        + rewrite Hw2. eauto.
      - destruct H2 as [(_ & g1 & Hg1' & Hg2)|[_ Hw2]].
        + rewrite Hw1, Hg in Hg1'. injection Hg1' as <-. eauto.
        + exists []. by rewrite Hw2, Hw1, app_nil_r. }
    destruct Hpre as [more Hmore]. exists more. split; [done|].
    intros i row Hi. by apply lookup_app_l_Some.
Qed.

Lemma log_challenge_never_idempotent_witness :
  exists w2,
    snd (log_challenge (PyStr "1") (PyStr "Alice") (PyStr "C01")
           (PyStr "Received") (PyStr "")
           (snd (log_challenge (PyStr "1") (PyStr "Alice") (PyStr "C01")
                   (PyStr "Received") (PyStr "") sample_world))) = w2
    /\ exists t1 t2,
         worksheets w2 !! playerlog_sheet
         = Some (sample_log ++
                   [log_row t1 (PyStr "1") (PyStr "Alice") (PyStr "C01")
                      (PyStr "Received") (PyStr "");
                    log_row t2 (PyStr "1") (PyStr "Alice") (PyStr "C01")
                      (PyStr "Received") (PyStr "")])%list.
Proof.
  eexists. split; [reflexivity|].
  destruct (log_challenge_never_idempotent (PyStr "1") (PyStr "Alice") (PyStr "C01")
              (PyStr "Received") (PyStr "") sample_world true _ true _
              eq_refl eq_refl) as [H _].
  destruct (H eq_refl eq_refl) as (g & t1 & t2 & Hg & Hg2 & _).
  assert (Hs : worksheets sample_world !! playerlog_sheet = Some sample_log)
    by reflexivity.
  rewrite Hs in Hg. injection Hg as <-.
  exists t1, t2. exact Hg2.
Defined.

(** *** [update_submission] on a table with the columns of the log *)

Definition HEADER_NAMES : list string := map py_str PLAYERLOG_HEADER.

(** A table of the player log: the six headers, and six cells a row. *)
Definition playerlog_table (g body : list (list pyval)) : Prop :=
  g = PLAYERLOG_HEADER :: body /\ Forall (fun cells => length cells = 6) body.

Lemma records_of_playerlog body :
  records_of (PLAYERLOG_HEADER :: body) = map (dict_zip HEADER_NAMES) body.
Proof. done. Qed.

Lemma six_cells (cells : list pyval) :
  length cells = 6 -> exists a b c d e f, cells = [a; b; c; d; e; f].
Proof.
  intros H. destruct cells as [|a [|b [|c [|d [|e [|f [|x l]]]]]]]; try done.
  by exists a, b, c, d, e, f.
Qed.

Lemma row_matches_cells pid cid a b c d e f :
  row_matches pid cid (dict_zip HEADER_NAMES [a; b; c; d; e; f])
  = String.eqb (py_str b) (py_str pid) && String.eqb (py_str d) (py_str cid).
Proof. reflexivity. Qed.

Lemma status_info_cells a b c d e f :
  status_info (dict_zip HEADER_NAMES [a; b; c; d; e; f])
  = {| status := e; timestamp := a; playerName := c; submissionText := f |}.
Proof. reflexivity. Qed.

(** Writing the columns 5 and 6 of a row keeps its identity pair, and
    gives it the new status and the new text. *)
Lemma written_row pid cid cells st text :
  length cells = 6 ->
  row_matches pid cid (dict_zip HEADER_NAMES (<[5 := text]> (<[4 := st]> cells)))
  = row_matches pid cid (dict_zip HEADER_NAMES cells)
  /\ row_matches pid cid (dict_zip HEADER_NAMES (<[4 := st]> cells))
     = row_matches pid cid (dict_zip HEADER_NAMES cells)
  /\ status (status_info (dict_zip HEADER_NAMES (<[5 := text]> (<[4 := st]> cells)))) = st
  /\ submissionText
       (status_info (dict_zip HEADER_NAMES (<[5 := text]> (<[4 := st]> cells)))) = text
  /\ status (status_info (dict_zip HEADER_NAMES (<[4 := st]> cells))) = st
  /\ submissionText (status_info (dict_zip HEADER_NAMES (<[4 := st]> cells)))
     = submissionText (status_info (dict_zip HEADER_NAMES cells)).
Proof.
  intros H. destruct (six_cells cells H) as (a & b & c & d & e & f & ->).
  cbn [list_insert insert]. by rewrite !row_matches_cells, !status_info_cells.
Qed.

(** What [update_submission] does when the table is read and the record
    at index [i] is the last match: the outcome of the two writes. *)
Lemma update_submission_on_match pid cid text st w body i r :
  reachable w = true ->
  worksheets w !! playerlog_sheet = Some (PLAYERLOG_HEADER :: body) ->
  Forall (fun cells => length cells = 6) body ->
  call_ok 0 w ->
  last_match pid cid (records_of (PLAYERLOG_HEADER :: body)) i r ->
  exists cells b w',
    body !! i = Some cells /\ r = dict_zip HEADER_NAMES cells
    /\ update_submission pid cid text st w = (b, w')
    /\ ((outcomes w !! 1 = Some false /\ b = false
         /\ worksheets w' = worksheets w)
        \/ (call_ok 1 w /\ outcomes w !! 2 = Some false /\ b = false
            /\ worksheets w' !! playerlog_sheet
               = Some (PLAYERLOG_HEADER :: <[i := <[4 := st]> cells]> body))
        \/ (call_ok 1 w /\ call_ok 2 w /\ b = true
            /\ worksheets w' !! playerlog_sheet
               = Some (PLAYERLOG_HEADER
                         :: <[i := <[5 := text]> (<[4 := st]> cells)]> body)
            /\ reachable w' = true
            /\ outcomes w' = drop 3 (outcomes w))).
Proof.
  intros Hr Hg Hsix Hok Hlast.
  pose proof Hlast as (Hi & _ & _).
  rewrite records_of_playerlog, list_lookup_fmap in Hi.
  destruct (body !! i) as [cells|] eqn:Hcells; [|done].
  injection Hi as <-. exists cells.
  assert (Hlen : length cells = 6).
  { rewrite Forall_forall in Hsix. apply Hsix.
    by apply list_elem_of_lookup_2 in Hcells. }
  assert (Hilt : i < length body) by by apply lookup_lt_Some in Hcells.
  unfold update_submission, run, try_except. unfold bind at 1.
  rewrite get_worksheet_eq, Hr, Hg.
  set (w0 := connected w).
  assert (Hg0 : worksheets w0 !! playerlog_sheet = Some (PLAYERLOG_HEADER :: body))
    by (unfold w0; by rewrite connected_worksheets).
  assert (Hok0 : call_ok 0 w0) by by apply call_ok_connected.
  rewrite (bind_ok _ _ _ _ _ (get_all_records_ok _ w0 _ Hok0 Hg0)).
  rewrite (find_matching_row_last _ _ _ _ _ Hlast).
  assert (Hne : exists r0 rs, records_of (PLAYERLOG_HEADER :: body) = r0 :: rs).
  { rewrite records_of_playerlog. destruct body; [done|]. simpl. eauto. }
  destruct Hne as (r0 & rs & ->).
  replace (i + 2) with (S (S i)) by lia.
  set (w1 := pop w0).
  assert (Hg1 : worksheets w1 !! playerlog_sheet = Some (PLAYERLOG_HEADER :: body))
    by (unfold w1; by rewrite pop_worksheets).
  assert (Ho1 : outcomes w1 = tail (outcomes w)).
  { unfold w1, w0. by rewrite pop_outcomes, connected_outcomes. }
  destruct (call_ok_dec 1 w) as [Hok1|Hbad1].
  2:{ (* the first write raises *)
    assert (Hb : outcomes w1 !! 0 = Some false) by by rewrite Ho1, lookup_tail.
    rewrite (bind_raised _ _ _ _ (update_cell_raises _ _ _ _ w1 Hb)).
    eexists _, _. split; [done|]. split; [done|]. split; [reflexivity|].
    left. split; [done|]. split; [done|].
    unfold w1, w0. by rewrite !pop_worksheets, connected_worksheets. }
  assert (Hok1' : call_ok 0 w1) by (unfold call_ok; by rewrite Ho1, lookup_tail).
  rewrite (bind_ok _ _ _ _ _
             (update_cell_ok _ (S i) 4 st w1 _ cells Hok1' Hg1 Hcells ltac:(lia))).
  set (g1 := <[S i := <[4 := st]> cells]> (PLAYERLOG_HEADER :: body)).
  set (w2 := set_worksheets _ (pop w1)).
  assert (Hg2 : worksheets w2 !! playerlog_sheet = Some g1) by apply lookup_insert_eq.
  assert (Ho2 : outcomes w2 = tail (tail (outcomes w))).
  { unfold w2. cbn. by rewrite pop_outcomes, Ho1. }
  assert (Hrow : g1 !! S i = Some (<[4 := st]> cells)).
  { unfold g1. by apply list_lookup_insert_eq; simpl; lia. }
  destruct (call_ok_dec 2 w) as [Hok2|Hbad2].
  2:{ (* the second write raises *)
    assert (Hb : outcomes w2 !! 0 = Some false) by by rewrite Ho2, !lookup_tail.
    rewrite (bind_raised _ _ _ _ (update_cell_raises _ _ _ _ w2 Hb)).
    eexists _, _. split; [done|]. split; [done|]. split; [reflexivity|].
    right. left. split; [done|]. split; [done|]. split; [done|].
    by rewrite pop_worksheets, Hg2. }
  assert (Hok2' : call_ok 0 w2) by (unfold call_ok; by rewrite Ho2, !lookup_tail).
  rewrite (bind_ok _ _ _ _ _
             (update_cell_ok _ (S i) 5 text w2 _ _ Hok2' Hg2 Hrow
                ltac:(rewrite length_insert; lia))).
  eexists _, _. split; [done|]. split; [done|]. split; [reflexivity|].
  right. right. split; [done|]. split; [done|]. split; [done|]. split; [|split].
  - cbn [worksheets set_worksheets]. rewrite lookup_insert_eq. unfold g1.
    by rewrite list_insert_insert_eq.
  - change (reachable (pop w2) = true). rewrite pop_reachable.
    change (reachable (pop w1) = true). rewrite pop_reachable.
    unfold w1. rewrite pop_reachable. by apply connected_reachable.
  - cbn [outcomes set_worksheets]. rewrite pop_outcomes, Ho2.
    by destruct (outcomes w) as [|? [|? [|? ?]]].
Qed.

(** When the table cannot be read, [update_submission] returns [false]
    and writes nothing. *)
Lemma update_submission_unreadable pid cid text st w :
  reachable w = false \/ worksheets w !! playerlog_sheet = None
  \/ outcomes w !! 0 = Some false ->
  exists w', update_submission pid cid text st w = (false, w')
    /\ worksheets w' = worksheets w.
Proof.
  intros H. unfold update_submission, run, try_except. unfold bind at 1.
  rewrite get_worksheet_eq. destruct (reachable w) eqn:Hr; [|by eexists].
  destruct (worksheets w !! playerlog_sheet) as [g|] eqn:Hg.
  2:{ eexists. split; [reflexivity|]. apply connected_worksheets. }
  destruct H as [?|[?|H]]; [done|done|].
  rewrite <- connected_outcomes in H.
  rewrite (bind_raised _ _ _ _ (get_all_records_raises _ (connected w) H)).
  eexists. split; [reflexivity|]. by rewrite pop_worksheets, connected_worksheets.
Qed.

(** When no record matches, [update_submission] returns [false] and
    writes nothing. *)
Lemma update_submission_no_match pid cid text st w g :
  worksheets w !! playerlog_sheet = Some g ->
  no_match pid cid (records_of g) ->
  exists w', update_submission pid cid text st w = (false, w')
    /\ worksheets w' = worksheets w.
Proof.
  intros Hg Hn. destruct (reachable w) eqn:Hr.
  2:{ apply update_submission_unreadable. by left. }
  destruct (call_ok_dec 0 w) as [Hok|Hbad].
  2:{ apply update_submission_unreadable. by right; right. }
  unfold update_submission, run, try_except. unfold bind at 1.
  rewrite get_worksheet_eq, Hr, Hg.
  assert (Hg0 : worksheets (connected w) !! playerlog_sheet = Some g)
    by by rewrite connected_worksheets.
  apply call_ok_connected in Hok.
  rewrite (bind_ok _ _ _ _ _ (get_all_records_ok _ (connected w) _ Hok Hg0)).
  rewrite (find_matching_row_none _ _ _ Hn).
  destruct (records_of g); (eexists; split; [reflexivity|]);
    by rewrite pop_worksheets, connected_worksheets.
Qed.

Lemma last_match_not_none pid cid records i r :
  last_match pid cid records i r -> ~ no_match pid cid records.
Proof.
  intros (Hi & Hm & _) Hn. apply list_elem_of_lookup_2 in Hi.
  specialize (Hn r Hi). congruence.
Qed.



(** C10: when the read and the write of the status succeed and the write
    of the submission text raises, [update_submission] returns [false] and
    leaves the matched row with the new status and its old submission
    text, every other row being as it was. *)
Theorem update_submission_not_atomic pid cid text st w g body i r :
  reachable w = true ->
  worksheets w !! playerlog_sheet = Some g ->
  playerlog_table g body ->
  last_match pid cid (records_of g) i r ->
  call_ok 0 w -> call_ok 1 w -> outcomes w !! 2 = Some false ->
  exists cells w',
    body !! i = Some cells
    /\ update_submission pid cid text st w = (false, w')
    /\ worksheets w' !! playerlog_sheet
       = Some (PLAYERLOG_HEADER :: <[i := <[4 := st]> cells]> body)
    /\ status (status_info (dict_zip HEADER_NAMES (<[4 := st]> cells))) = st
    /\ submissionText (status_info (dict_zip HEADER_NAMES (<[4 := st]> cells)))
       = submissionText (status_info r).
Proof.
  intros Hr Hg [-> Hsix] Hlast Hok0 Hok1 Hbad2.
  destruct (update_submission_on_match pid cid text st w body i r Hr Hg Hsix Hok0 Hlast)
    as (cells & b & w' & Hcells & -> & Heq & Hcases).
  assert (Hlen : length cells = 6).
  { rewrite Forall_forall in Hsix. apply Hsix.
    by apply list_elem_of_lookup_2 in Hcells. }
  destruct (written_row pid cid cells st text Hlen) as (_ & _ & _ & _ & Hst & Htx).
  exists cells, w'. split; [done|].
  destruct Hcases as [(Hb & _)|[(_ & _ & -> & Hg')|(_ & Hok2 & _)]];
    [by destruct Hok1| |by destruct Hok2].
  done.
Qed.

Lemma update_submission_not_atomic_witness :
  exists w',
    update_submission (PyStr "1") (PyStr "C01") (PyStr "done") (PyStr "Submitted")
      (set_outcomes [true; true; false] sample_world) = (false, w')
    /\ worksheets w' !! playerlog_sheet
       = Some [ PLAYERLOG_HEADER;
                [PyStr "2024-05-01 10:00:00"; PyInt 1; PyStr "Alice"; PyStr "C01";
                 PyStr "Received"; PyStr ""];
                [PyStr "2024-05-01 10:05:00"; PyInt 2; PyStr "Bob"; PyStr "C01";
                 PyStr "Received"; PyStr ""];
                [PyStr "2024-04-30 09:00:00"; PyStr "1"; PyStr "Alice"; PyStr "C01";
                 PyStr "Submitted"; PyStr ""] ].
Proof.
  assert (Hlast : last_match (PyStr "1") (PyStr "C01") (records_of sample_log) 2
            (dict_zip HEADER_NAMES
               [PyStr "2024-04-30 09:00:00"; PyStr "1"; PyStr "Alice"; PyStr "C01";
                PyStr "In Progress"; PyStr ""])).
  { split; [reflexivity|]. split; [vm_compute; reflexivity|].
    intros j r' Hj Hr'. apply lookup_lt_Some in Hr'. simpl in Hr'. lia. }
  assert (Htable : playerlog_table sample_log (tail sample_log)).
  { split; [reflexivity|]. repeat constructor. }
  assert (Hok0 : call_ok 0 (set_outcomes [true; true; false] sample_world))
    by (intros H; discriminate H).
  assert (Hok1 : call_ok 1 (set_outcomes [true; true; false] sample_world))
    by (intros H; discriminate H).
  destruct (update_submission_not_atomic (PyStr "1") (PyStr "C01") (PyStr "done")
              (PyStr "Submitted") (set_outcomes [true; true; false] sample_world)
              sample_log (tail sample_log) 2 _ eq_refl eq_refl
              Htable Hlast Hok0 Hok1 eq_refl)
    as (cells & w' & Hcells & Heq & Hg' & _).
  exists w'. split; [exact Heq|].
  injection Hcells as <-. exact Hg'.
Defined.

(** *** The result [false] of [update_submission] and the handler *)

Import Routes.

Lemma update_submission_false_iff pid cid text st w g body :
  worksheets w !! playerlog_sheet = Some g ->
  playerlog_table g body ->
  fst (update_submission pid cid text st w) = false
  <-> reachable w = false \/ outcomes w !! 0 = Some false
      \/ no_match pid cid (records_of g)
      \/ outcomes w !! 1 = Some false \/ outcomes w !! 2 = Some false.
Proof.
  intros Hg [-> Hsix].
  destruct (reachable w) eqn:Hr.
  2:{ destruct (update_submission_unreadable pid cid text st w) as (w' & -> & _);
        [by left|]. split; auto. }
  destruct (call_ok_dec 0 w) as [Hok0|Hbad0].
  2:{ destruct (update_submission_unreadable pid cid text st w) as (w' & -> & _);
        [by right; right|]. split; auto. }
  destruct (last_match_or_none pid cid (records_of (PLAYERLOG_HEADER :: body)))
    as [(i & r & Hlast)|Hn].
  2:{ destruct (update_submission_no_match pid cid text st w _ Hg Hn) as (w' & -> & _).
      split; auto. }
  destruct (update_submission_on_match pid cid text st w body i r Hr Hg Hsix Hok0 Hlast)
    as (cells & b & w' & _ & _ & -> & Hcases).
  destruct Hcases as [(Hb & -> & _)|[(_ & Hb & -> & _)|(Hok1 & Hok2 & -> & _)]].
  - split; auto.
  - split; auto 6.
  - split; [done|]. intros [?|[?|[Hn|[?|?]]]]; try done.
    by apply last_match_not_none in Hlast.
Qed.

Lemma submit_challenge_not_found (d d' : gmap string pyval) pid cid text w :
  Validators.validate_submission_data (Some d) = ((true, ""), Some d') ->
  d' !! "playerId" = Some pid -> d' !! "challengeId" = Some cid ->
  d' !! "submissionText" = Some text ->
  fst (update_submission pid cid text (PyStr "Submitted") w) = false ->
  fst (submit_challenge (Some d) w)
  = mkResponse 404 "error"
      ("No matching challenge log found for playerId " +:+ py_str pid
         +:+ " and challengeId " +:+ py_str cid).
Proof.
  intros Hv Hp Hc Ht Hu. unfold submit_challenge, run, try_except.
  rewrite Hv. cbv beta iota. cbn [negb]. rewrite Hp, Hc, Ht.
  destruct (update_submission pid cid text (PyStr "Submitted") w) as [b w'].
  simpl in Hu. by subst b.
Qed.

(** C6, on the code: a record of the table matches the pair and the table
    is read, yet [update_submission] returns [false], the write of the
    status having raised. *)
Lemma update_submission_false_with_match :
  let w := set_outcomes [true; false] sample_world in
  reachable w = true
  /\ fst (get_all_records playerlog_sheet (connected w)) = Ok (records_of sample_log)
  /\ (exists r, r ∈ records_of sample_log
        /\ row_matches (PyStr "1") (PyStr "C01") r = true)
  /\ fst (update_submission (PyStr "1") (PyStr "C01") (PyStr "done")
            (PyStr "Submitted") w) = false.
Proof.
  intros w. split; [reflexivity|]. split; [reflexivity|]. split.
  - exists (dict_zip HEADER_NAMES
              [PyStr "2024-05-01 10:00:00"; PyInt 1; PyStr "Alice"; PyStr "C01";
               PyStr "Received"; PyStr ""]).
    split; [left|vm_compute; reflexivity].
  - vm_compute. reflexivity.
Qed.

(** C6, amended: on a table of the player log, [update_submission]
    returns [false] exactly when the store is not reached, the read
    raises, no record matches the pair, or one of the two writes raises;
    it also returns [false] when the worksheet is missing; when no record
    matches no worksheet is changed; the submit-proof handler answers a
    valid payload for which [update_submission] returns [false] with the
    status 404 and the message of the missing log, so a pair with no row
    is answered 404; and [false] is returned both by a store that is not
    reached and by a store without a matching row. *)
Theorem update_submission_false_cases :
  (forall pid cid text st w g body,
     worksheets w !! playerlog_sheet = Some g -> playerlog_table g body ->
     fst (update_submission pid cid text st w) = false
     <-> reachable w = false \/ outcomes w !! 0 = Some false
         \/ no_match pid cid (records_of g)
         \/ outcomes w !! 1 = Some false \/ outcomes w !! 2 = Some false)
  /\ (forall pid cid text st w,
        worksheets w !! playerlog_sheet = None ->
        fst (update_submission pid cid text st w) = false)
  /\ (forall pid cid text st w g,
        worksheets w !! playerlog_sheet = Some g ->
        no_match pid cid (records_of g) ->
        exists w', update_submission pid cid text st w = (false, w')
          /\ worksheets w' = worksheets w)
  /\ (forall (d d' : gmap string pyval) pid cid text w g,
        Validators.validate_submission_data (Some d) = ((true, ""), Some d') ->
        d' !! "playerId" = Some pid -> d' !! "challengeId" = Some cid ->
        d' !! "submissionText" = Some text ->
        worksheets w !! playerlog_sheet = Some g ->
        no_match pid cid (records_of g) ->
        fst (submit_challenge (Some d) w)
        = mkResponse 404 "error"
            ("No matching challenge log found for playerId " +:+ py_str pid
               +:+ " and challengeId " +:+ py_str cid))
  /\ (exists w1 w2 g,
        reachable w1 = false
        /\ reachable w2 = true /\ call_ok 0 w2
        /\ worksheets w2 !! playerlog_sheet = Some g
        /\ no_match (PyStr "9") (PyStr "C01") (records_of g)
        /\ fst (update_submission (PyStr "9") (PyStr "C01") (PyStr "done")
                  (PyStr "Submitted") w1) = false
        /\ fst (update_submission (PyStr "9") (PyStr "C01") (PyStr "done")
                  (PyStr "Submitted") w2) = false).
Proof.
  split; [exact update_submission_false_iff|]. split; [|split; [|split]].
  - intros pid cid text st w Hnone.
    destruct (update_submission_unreadable pid cid text st w) as (w' & -> & _);
      [by right; left|done].
  - exact update_submission_no_match.
  - intros d d' pid cid text w g Hv Hp Hc Ht Hg Hn.
    apply (submit_challenge_not_found d d' pid cid text w Hv Hp Hc Ht).
    by destruct (update_submission_no_match pid cid text (PyStr "Submitted") w g Hg Hn)
      as (w' & -> & _).
  - exists (mkWorld false false (<[playerlog_sheet := sample_log]> ∅) []
              (fun _ => "") 0), sample_world, sample_log.
    assert (Hn : no_match (PyStr "9") (PyStr "C01") (records_of sample_log)).
    { intros r Hr. apply list_elem_of_In in Hr. simpl in Hr.
      destruct Hr as [<-|[<-|[<-|[]]]]; vm_compute; reflexivity. }
    split; [reflexivity|]. split; [reflexivity|].
    split; [intros H; discriminate H|]. split; [reflexivity|]. split; [exact Hn|].
    split; vm_compute; reflexivity.
Qed.

Lemma update_submission_false_cases_witness :
  let d : gmap string pyval :=
    <["playerId" := PyStr "9"]> (<["challengeId" := PyStr "C01"]>
      (<["submissionText" := PyStr "done"]> ∅)) in
  fst (submit_challenge (Some d) sample_world)
  = mkResponse 404 "error"
      "No matching challenge log found for playerId 9 and challengeId C01".
Proof.
  intros d.
  destruct update_submission_false_cases as (_ & _ & _ & H & _).
  assert (Hn : no_match (PyStr "9") (PyStr "C01") (records_of sample_log)).
  { intros r Hr. apply list_elem_of_In in Hr. simpl in Hr.
    destruct Hr as [<-|[<-|[<-|[]]]]; vm_compute; reflexivity. }
  apply (H d d (PyStr "9") (PyStr "C01") (PyStr "done") sample_world sample_log);
    [vm_compute; reflexivity|reflexivity|reflexivity|reflexivity|reflexivity|exact Hn].
Defined.

(** * Further properties of the validators, the client and the handlers *)

(** ** What a computation keeps of the world *)

(** Every run of [m] relates the world before to the world after by [R]. *)
Definition preserves {A} (R : World -> World -> Prop) (m : M A) : Prop :=
  forall w r w', m w = (r, w') -> R w w'.

Section Preservation.

Variable R : World -> World -> Prop.
Hypothesis R_refl : forall w, R w w.
Hypothesis R_trans : forall w1 w2 w3, R w1 w2 -> R w2 w3 -> R w1 w3.

Lemma preserves_ret {A} (a : A) : preserves R (ret a).
Proof. intros w r w' [= <- <-]. apply R_refl. Qed.

Lemma preserves_raise {A} : preserves R (@raise A).
Proof. intros w r w' [= <- <-]. apply R_refl. Qed.

Lemma preserves_bind {A B} (m : M A) (f : A -> M B) :
  preserves R m -> (forall a, preserves R (f a)) -> preserves R (bind m f).
Proof.
  intros Hm Hf w r w'. unfold bind. destruct (m w) as [[a|] w1] eqn:H1.
  - intros H2. eapply R_trans; [by eapply Hm|by eapply Hf].
  - intros [= <- <-]. by eapply Hm.
Qed.

(** [m] returns only values that satisfy [P]. *)
Definition returns {A} (P : A -> Prop) (m : M A) : Prop :=
  forall w a w', m w = (Ok a, w') -> P a.

Lemma preserves_bind_returns {A B} (P : A -> Prop) (m : M A) (f : A -> M B) :
  preserves R m -> returns P m -> (forall a, P a -> preserves R (f a)) ->
  preserves R (bind m f).
Proof.
  intros Hm HP Hf w r w'. unfold bind. destruct (m w) as [[a|] w1] eqn:H1.
  - intros H2. eapply R_trans; [by eapply Hm|]. eapply Hf; [by eapply HP|done].
  - intros [= <- <-]. by eapply Hm.
Qed.

Lemma preserves_try_except {A} (body handler : M A) :
  preserves R body -> preserves R handler -> preserves R (try_except body handler).
Proof.
  intros Hb Hh w r w'. unfold try_except. destruct (body w) as [[a|] w1] eqn:H1.
  - intros [= <- <-]. by eapply Hb.
  - intros H2. eapply R_trans; [by eapply Hb|by eapply Hh].
Qed.

Lemma preserves_run {A} (dflt : A) (m : M A) w :
  preserves R m -> R w (snd (run dflt m w)).
Proof.
  intros Hm. unfold run. destruct (m w) as [[a|] w1] eqn:H1; by eapply Hm.
Qed.

End Preservation.

(** The worksheets are as they were. *)
Definition same_sheets (w w' : World) : Prop := worksheets w' = worksheets w.

(** The worksheets have the rows and the cells they had, the content of
    the cells of the player log apart. *)
Definition same_shape (w w' : World) : Prop :=
  forall name,
    (name <> playerlog_sheet -> worksheets w' !! name = worksheets w !! name)
    /\ (fmap (M := option) (map (@length pyval)) (worksheets w' !! name)
        = fmap (M := option) (map (@length pyval)) (worksheets w !! name)).

Lemma same_sheets_refl w : same_sheets w w.
Proof. done. Qed.

Lemma same_sheets_trans w1 w2 w3 :
  same_sheets w1 w2 -> same_sheets w2 w3 -> same_sheets w1 w3.
Proof. unfold same_sheets. congruence. Qed.

Lemma same_shape_refl w : same_shape w w.
Proof. by intros name. Qed.

Lemma same_shape_trans w1 w2 w3 :
  same_shape w1 w2 -> same_shape w2 w3 -> same_shape w1 w3.
Proof.
  intros H1 H2 name. destruct (H1 name) as [H1a H1b], (H2 name) as [H2a H2b].
  split; [intros Hn; by rewrite H2a, H1a|congruence].
Qed.

Lemma same_sheets_shape w w' : same_sheets w w' -> same_shape w w'.
Proof. intros H name. by rewrite H. Qed.

Lemma api_call_same_sheets : preserves same_sheets api_call.
Proof.
  intros w r w'. unfold api_call, same_sheets.
  destruct (outcomes w) as [|[] o]; by intros [= <- <-].
Qed.

Lemma get_worksheet_same_sheets name : preserves same_sheets (get_worksheet name).
Proof.
  intros w r w'. rewrite get_worksheet_eq. unfold same_sheets.
  destruct (reachable w); intros [= <- <-]; [apply connected_worksheets|done].
Qed.

Lemma get_worksheet_returns name :
  returns (fun o => o = Some name \/ o = None) (get_worksheet name).
Proof.
  intros w o w'. rewrite get_worksheet_eq.
  destruct (reachable w); [|intros [= <- _]; by right].
  destruct (worksheets w !! name); intros [= <- _]; [by left|by right].
Qed.

Lemma get_all_records_same_sheets name : preserves same_sheets (get_all_records name).
Proof.
  unfold get_all_records.
  apply preserves_bind; [apply same_sheets_trans|apply api_call_same_sheets|].
  intros _ w r w'. destruct (worksheets w !! name); by intros [= <- <-].
Qed.

Lemma update_cell_same_shape row col v :
  preserves same_shape (update_cell playerlog_sheet row col v).
Proof.
  unfold update_cell.
  apply preserves_bind; [apply same_shape_trans| |].
  { intros w r w' H. apply same_sheets_shape. by eapply api_call_same_sheets. }
  intros _ w r w'. destruct (worksheets w !! playerlog_sheet) as [g|] eqn:Hg.
  2:{ intros [= <- <-]. apply same_shape_refl. }
  destruct row as [|r0]; [intros [= <- <-]; apply same_shape_refl|].
  destruct col as [|c0]; [intros [= <- <-]; apply same_shape_refl|].
  destruct (g !! r0) as [cells|] eqn:Hr; [|intros [= <- <-]; apply same_shape_refl].
  destruct (Nat.ltb c0 (length cells)); intros [= <- <-]; [|apply same_shape_refl].
  intros name. cbn [worksheets set_worksheets]. split.
  - intros Hn. by rewrite lookup_insert_ne.
  - destruct (decide (name = playerlog_sheet)) as [->|Hn].
    + rewrite lookup_insert_eq, Hg. cbn. f_equal.
      apply list_eq. intros j. rewrite !list_lookup_fmap.
      destruct (decide (j = r0)) as [->|Hj].
      * rewrite list_lookup_insert_eq by by apply lookup_lt_Some in Hr.
        rewrite Hr. cbn. by rewrite length_insert.
      * by rewrite list_lookup_insert_ne.
    + by rewrite lookup_insert_ne.
Qed.

Lemma get_player_status_monadic_read_only pid cid :
  preserves same_sheets
    (try_except
       (worksheet <- get_worksheet playerlog_sheet ;;
        match worksheet with
        | None => ret None
        | Some worksheet =>
            records <- get_all_records worksheet ;;
            match records with
            | [] => ret None
            | _ => ret (first_match pid cid (rev records))
            end
        end)
       (ret None)).
Proof.
  apply preserves_try_except; [apply same_sheets_trans| |by apply preserves_ret].
  apply preserves_bind; [apply same_sheets_trans|apply get_worksheet_same_sheets|].
  intros [ws|]; [|by apply preserves_ret].
  apply preserves_bind; [apply same_sheets_trans|apply get_all_records_same_sheets|].
  intros [|r rs]; by apply preserves_ret.
Qed.

(** X8: The two reads of the client change no worksheet, whatever the state
    of the store and the outcome of its calls. *)
Theorem reads_change_no_worksheet pid cid w :
  worksheets (snd (Sheets.get_player_status pid cid w)) = worksheets w
  /\ worksheets (snd (Sheets.get_challenges w)) = worksheets w.
Proof.
  split.
  - apply (preserves_run same_sheets None _ w), get_player_status_monadic_read_only.
  - apply (preserves_run same_sheets [] _ w).
    apply preserves_try_except; [apply same_sheets_trans| |by apply preserves_ret].
    apply preserves_bind; [apply same_sheets_trans|apply get_worksheet_same_sheets|].
    intros [ws|]; [|by apply preserves_ret].
    apply preserves_bind; [apply same_sheets_trans|apply get_all_records_same_sheets|].
    intros [|r rs]; by apply preserves_ret.
Qed.

(** X9: [update_submission] adds no row and removes none, keeps the number
    of cells of every row, and leaves every worksheet other than the
    player log as it was, whatever the state of the store and the outcome
    of its calls. *)
Theorem update_submission_keeps_shape pid cid text st w name :
  (name <> playerlog_sheet ->
   worksheets (snd (Sheets.update_submission pid cid text st w)) !! name
   = worksheets w !! name)
  /\ (fmap (M := option) (map (@length pyval))
        (worksheets (snd (Sheets.update_submission pid cid text st w)) !! name)
      = fmap (M := option) (map (@length pyval)) (worksheets w !! name)).
Proof.
  revert name. change (same_shape w (snd (Sheets.update_submission pid cid text st w))).
  apply (preserves_run same_shape false _ w).
  apply preserves_try_except;
    [apply same_shape_trans| |apply preserves_ret, same_shape_refl].
  apply (preserves_bind_returns same_shape same_shape_trans
           (fun o => o = Some playerlog_sheet \/ o = None)).
  { intros w0 r w' H. apply same_sheets_shape. by eapply get_worksheet_same_sheets. }
  { apply get_worksheet_returns. }
  intros o [-> | ->]; [|apply preserves_ret, same_shape_refl].
  apply preserves_bind; [apply same_shape_trans| |].
  { intros w0 r w' H. apply same_sheets_shape. by eapply get_all_records_same_sheets. }
  intros records. destruct records as [|r0 rs]; [apply preserves_ret, same_shape_refl|].
  destruct (find_matching_row pid cid (r0 :: rs) (length (r0 :: rs))) as [row|];
    [|apply preserves_ret, same_shape_refl].
  apply preserves_bind; [apply same_shape_trans|apply update_cell_same_shape|].
  intros _.
  apply preserves_bind; [apply same_shape_trans|apply update_cell_same_shape|].
  intros _. apply preserves_ret, same_shape_refl.
Qed.

Lemma update_submission_keeps_shape_witness :
  worksheets (snd (Sheets.update_submission (PyStr "1") (PyStr "C01") (PyStr "done")
                     (PyStr "Submitted") sample_world)) !! challenges_sheet
  = worksheets sample_world !! challenges_sheet.
Proof.
  apply (update_submission_keeps_shape (PyStr "1") (PyStr "C01") (PyStr "done")
           (PyStr "Submitted") sample_world challenges_sheet).
  discriminate.
Defined.

(** ** The validators on every input *)

(** The characters that [html.escape] replaces, the ampersand apart. *)
Definition is_markup (c : ascii) : bool :=
  Ascii.eqb c "<" || Ascii.eqb c ">" || Ascii.eqb c dquote || Ascii.eqb c "'".

Lemma escape_char_no_markup c :
  Forall (fun x => is_markup x = false) (escape_char c).
Proof.
  pose proof (forall_ascii
    (fun c => forallb (fun x => negb (is_markup x)) (escape_char c)) eq_refl c) as H.
  simpl in H. rewrite forallb_forall in H. apply Forall_forall. intros x Hx.
  apply list_elem_of_In, H in Hx. by destruct (is_markup x).
Qed.

Lemma escape_no_markup s : Forall (fun x => is_markup x = false) (escape s).
Proof.
  induction s as [|c s IH]; simpl; [constructor|].
  apply Forall_app. split; [apply escape_char_no_markup|done].
Qed.

Lemma sub_from_keeps ic re (P : ascii -> Prop) s : forall bos skip,
  Forall P s -> Forall P (sub_from ic re bos skip s).
Proof.
  induction s as [|ch s IH]; intros bos skip Hs; simpl; [constructor|].
  apply Forall_cons in Hs as [Hc Hs].
  destruct skip as [|n]; [|by apply IH].
  destruct (match_here ic re bos (ch :: s)) as [r|].
  - destruct (_ - length r) as [|n]; [|by apply IH].
    constructor; [done|by apply IH].
  - constructor; [done|by apply IH].
Qed.

Lemma strip_keeps (P : ascii -> Prop) s : Forall P s -> Forall P (strip s).
Proof.
  intros Hs. destruct (strip_substring s) as (a & b & Heq). rewrite Heq in Hs.
  apply Forall_app in Hs as [_ Hs]. by apply Forall_app in Hs as [Hs _].
Qed.

Lemma foldl_re_sub_keeps (P : ascii -> Prop) (ps : list regex) : forall t,
  Forall P (list_ascii_of_string t) ->
  Forall P (list_ascii_of_string
              (foldl (fun t pattern => re_sub true pattern t) t ps)).
Proof.
  induction ps as [|p ps IH]; intros t Ht; simpl; [done|].
  apply IH. unfold re_sub. rewrite list_ascii_of_string_of_list_ascii.
  by apply sub_from_keeps.
Qed.

Lemma sanitize_input_no_markup_bool t :
  Forall (fun c => is_markup c = false) (list_ascii_of_string (sanitize_input t)).
Proof.
  unfold sanitize_input, py_strip. rewrite list_ascii_of_string_of_list_ascii.
  apply strip_keeps, foldl_re_sub_keeps.
  unfold html_escape. rewrite list_ascii_of_string_of_list_ascii.
  apply escape_no_markup.
Qed.

(** X3: Whatever the text, the result of [sanitize_input] holds none of the
    characters [<], [>], the double quote and the single quote. *)
Theorem sanitize_input_no_markup t :
  Forall (fun c => c <> "<"%char /\ c <> ">"%char /\ c <> dquote /\ c <> "'"%char)
    (list_ascii_of_string (sanitize_input t)).
Proof.
  eapply Forall_impl; [apply sanitize_input_no_markup_bool|].
  intros c Hc. unfold is_markup in Hc.
  repeat split; intros ->; by vm_compute in Hc.
Qed.

(** X4: The script-tag pattern removes nothing in [sanitize_input]: the text
    is escaped before the patterns are applied, and no [<] is left for
    the pattern to match. *)
Theorem sanitize_input_script_pattern_idle t :
  re_sub true (nth 0 MALICIOUS_PATTERNS []) (html_escape t) = html_escape t.
Proof.
  apply re_sub_no_match; [done|].
  unfold html_escape. rewrite list_ascii_of_string_of_list_ascii.
  apply (no_match_without true is_lt); [done|by vm_compute|apply escape_no_lt].
Qed.

(** X2: [validate_status_query] accepts exactly two parameters that are
    present and accepted by [validate_id_format]; and a [challengeId] that
    is absent or empty is reported before the format of [playerId] is
    looked at. *)
Theorem validate_status_query_spec p c :
  (validate_status_query p c = (true, "") <->
   exists pid cid, p = Some pid /\ c = Some cid
     /\ validate_id_format pid = (true, "")
     /\ validate_id_format cid = (true, ""))
  /\ (forall pid, p = Some pid -> pid <> "" -> c = None \/ c = Some "" ->
      validate_status_query p c = (false, "Missing required parameter: challengeId")).
Proof.
  split.
  - split.
    + unfold validate_status_query.
      destruct p as [[|a pid]|]; [done| |done].
      destruct c as [[|b cid]|]; [done| |done].
      destruct (validate_id_format (String a pid)) as [[] e1] eqn:H1; [|done].
      destruct (validate_id_format (String b cid)) as [[] e2] eqn:H2; [|done].
      intros _. apply validate_id_format_true in H1 as H1'.
      apply validate_id_format_true in H2 as H2'.
      destruct H1' as [-> _], H2' as [-> _]. by exists (String a pid), (String b cid).
    + intros (pid & cid & -> & -> & H1 & H2). unfold validate_status_query.
      assert (pid <> "") by (by apply validate_id_format_true in H1 as (_ & ? & _)).
      assert (cid <> "") by (by apply validate_id_format_true in H2 as (_ & ? & _)).
      destruct pid; [done|]. destruct cid; [done|]. by rewrite H1, H2.
  - intros pid -> Hne Hc. unfold validate_status_query.
    destruct pid; [done|]. by destruct Hc as [-> | ->].
Qed.

Lemma validate_status_query_spec_witness :
  validate_status_query (Some "bad id!") None
  = (false, "Missing required parameter: challengeId").
Proof.
  apply (proj2 (validate_status_query_spec (Some "bad id!") None) "bad id!").
  - reflexivity.
  - discriminate.
  - by left.
Defined.

Lemma challenge_checks_false fields (d : gmap string pyval) ret :
  challenge_checks fields d = Some ret -> fst ret = false.
Proof.
  induction fields as [|f fields IH]; cbn [challenge_checks]; [done|].
  destruct (d !! f) as [v|]; [|by intros [= <-]].
  destruct (negb (py_truthy v)); [by intros [= <-]|].
  destruct (existsb (String.eqb f) ["playerId"; "challengeId"]).
  - destruct (validate_id_format (py_str v)) as [[] e]; cbn [negb]; [done|].
    by intros [= <-].
  - destruct (String.eqb f "playerName"); [|done].
    destruct (validate_text_field (py_str v) f 100) as [[] e]; cbn [negb]; [done|].
    by intros [= <-].
Qed.

Lemma submission_checks_false fields (d : gmap string pyval) ret :
  submission_checks fields d = Some ret -> fst ret = false.
Proof.
  induction fields as [|f fields IH]; cbn [submission_checks]; [done|].
  destruct (d !! f) as [v|]; [|by intros [= <-]].
  destruct (negb (py_truthy v)); [by intros [= <-]|].
  destruct (existsb (String.eqb f) ["playerId"; "challengeId"]).
  - destruct (validate_id_format (py_str v)) as [[] e]; cbn [negb]; [done|].
    by intros [= <-].
  - destruct (String.eqb f "submissionText"); [|done].
    destruct (validate_text_field (py_str v) f 5000) as [[] e]; cbn [negb]; [done|].
    by intros [= <-].
Qed.

Lemma sanitize_fields_dom fields : forall (d : gmap string pyval),
  dom (sanitize_fields fields d) = dom d.
Proof.
  unfold sanitize_fields.
  induction fields as [|f fields IH]; intros d; simpl; [done|].
  rewrite IH. destruct (d !! f) as [v|] eqn:Hv; [|done].
  apply dom_insert_lookup_L. eauto.
Qed.

Lemma sanitize_fields_strings fields : forall (d : gmap string pyval) f,
  NoDup fields -> f ∈ fields -> is_Some (d !! f) ->
  exists s, sanitize_fields fields d !! f = Some (PyStr s).
Proof.
  intros d f Hnd Hf [v Hv]. rewrite (sanitize_fields_lookup fields d f v); eauto.
Qed.

(** X5: A validator that refuses a payload leaves it as it was. *)
Theorem validation_failure_keeps_payload data e data' :
  (validate_challenge_data data = ((false, e), data') -> data' = data)
  /\ (validate_submission_data data = ((false, e), data') -> data' = data).
Proof.
  split.
  - unfold validate_challenge_data. destruct data as [d|]; [|by intros [= _ <-]].
    destruct (Nat.eqb (size d) 0); [by intros [= _ <-]|].
    destruct (challenge_checks _ d); by intros [= _ <-].
  - unfold validate_submission_data. destruct data as [d|]; [|by intros [= _ <-]].
    destruct (Nat.eqb (size d) 0); [by intros [= _ <-]|].
    destruct (submission_checks _ d); by intros [= _ <-].
Qed.

Lemma validation_failure_keeps_payload_witness :
  snd (validate_challenge_data
         (Some (<["playerId" := PyStr "<b>"]> (∅ : gmap string pyval))))
  = Some (<["playerId" := PyStr "<b>"]> ∅).
Proof.
  apply (proj1 (validation_failure_keeps_payload _
    "playerId: ID contains invalid characters (only alphanumeric, underscore, and dash allowed)" _)).
  vm_compute. reflexivity.
Defined.

Lemma required_fields_nodup (a b c : string) :
  a <> b -> a <> c -> b <> c -> NoDup [a; b; c].
Proof.
  intros Hab Hac Hbc. apply NoDup_ListNoDup.
  repeat constructor; simpl; intuition congruence.
Qed.

(** X6: A validator that accepts a payload keeps its keys, changes the value
    of no key other than its three fields, and leaves each of the three
    fields a string. *)
Theorem validation_success_keeps_keys (d : gmap string pyval) e data' :
  (validate_challenge_data (Some d) = ((true, e), data') ->
   exists d', data' = Some d' /\ dom d' = dom d
     /\ (forall k, k ∉ ["playerId"; "playerName"; "challengeId"] -> d' !! k = d !! k)
     /\ (forall k, k ∈ ["playerId"; "playerName"; "challengeId"] ->
           exists s, d' !! k = Some (PyStr s)))
  /\ (validate_submission_data (Some d) = ((true, e), data') ->
      exists d', data' = Some d' /\ dom d' = dom d
        /\ (forall k, k ∉ ["playerId"; "challengeId"; "submissionText"] ->
              d' !! k = d !! k)
        /\ (forall k, k ∈ ["playerId"; "challengeId"; "submissionText"] ->
              exists s, d' !! k = Some (PyStr s))).
Proof.
  split.
  - intros H. apply validate_challenge_data_accept_inv in H as (_ & -> & Hok).
    eexists. split; [done|]. split; [apply sanitize_fields_dom|].
    split; [intros k Hk; by apply sanitize_fields_other|].
    intros k Hk. destruct (challenge_field_ok_inv k d (Hok k Hk)) as (v & Hv & _).
    apply sanitize_fields_strings; [by apply required_fields_nodup|done|eauto].
  - unfold validate_submission_data. destruct (Nat.eqb (size d) 0); [done|].
    destruct (submission_checks _ d) as [ret|] eqn:Hc.
    { intros [= -> _]. by apply submission_checks_false in Hc. }
    intros [= _ Heq].
    exists (sanitize_fields ["playerId"; "challengeId"; "submissionText"] d).
    split; [by rewrite <- Heq|]. clear Heq. split; [apply sanitize_fields_dom|].
    split; [intros k Hk; by apply sanitize_fields_other|].
    intros k Hk.
    assert (Hs : is_Some (d !! k)).
    { cbn [submission_checks] in Hc.
      destruct (d !! "playerId") as [v1|] eqn:H1; [|done].
      destruct (negb (py_truthy v1)); [done|]. cbn in Hc.
      destruct (validate_id_format (py_str v1)) as [[] e1]; [|done]. cbn in Hc.
      destruct (d !! "challengeId") as [v2|] eqn:H2; [|done].
      destruct (negb (py_truthy v2)); [done|]. cbn in Hc.
      destruct (validate_id_format (py_str v2)) as [[] e2]; [|done]. cbn in Hc.
      destruct (d !! "submissionText") as [v3|] eqn:H3; [|done].
      apply list_elem_of_In in Hk. simpl in Hk.
      destruct Hk as [<-|[<-|[<-|[]]]]; eauto. }
    apply sanitize_fields_strings; [by apply required_fields_nodup|done|done].
Qed.

Lemma validation_success_keeps_keys_witness :
  let d : gmap string pyval :=
    <["playerId" := PyInt 12345]> (<["playerName" := PyStr "test_player"]>
      (<["challengeId" := PyStr "C01"]> (<["extra" := PyInt 7]> ∅))) in
  exists d', snd (validate_challenge_data (Some d)) = Some d'
    /\ d' !! "extra" = Some (PyInt 7)
    /\ exists s, d' !! "playerId" = Some (PyStr s).
Proof.
  intros d.
  destruct (proj1 (validation_success_keeps_keys d ""
                     (snd (validate_challenge_data (Some d)))))
    as (d' & Hd' & _ & Hother & Hstr); [vm_compute; reflexivity|].
  exists d'. split; [exact Hd'|]. split.
  - rewrite Hother; [reflexivity|].
    intros Hin. apply list_elem_of_In in Hin. simpl in Hin.
    destruct Hin as [H|[H|[H|[]]]]; discriminate H.
  - apply Hstr. apply list_elem_of_In. simpl. tauto.
Defined.

Lemma id_char_plain c :
  id_char c = true -> escape_char c = [c] /\ is_space c = false.
Proof.
  pose proof (forall_ascii
    (fun c => implb (id_char c)
                (match escape_char c with [x] => Ascii.eqb x c | _ => false end
                 && negb (is_space c))) eq_refl c) as H.
  simpl in H. intros Hc. rewrite Hc in H. simpl in H.
  apply andb_prop in H as [H1 H2].
  destruct (escape_char c) as [|x [|]]; try done.
  apply Ascii.eqb_eq in H1 as ->. by destruct (is_space c).
Qed.

Lemma escape_id_chars l : Forall (fun c => id_char c = true) l -> escape l = l.
Proof.
  induction 1 as [|c l Hc _ IH]; simpl; [done|].
  by rewrite (proj1 (id_char_plain c Hc)), IH.
Qed.

Lemma strip_id_chars l : Forall (fun c => id_char c = true) l -> strip l = l.
Proof.
  intros Hl. apply strip_of_trimmed. split.
  - intros c r ->. apply Forall_cons in Hl as [Hc _]. by apply id_char_plain.
  - intros r c ->. apply Forall_app in Hl as [_ Hl].
    apply Forall_cons in Hl as [Hc _]. by apply id_char_plain.
Qed.

Lemma strip_id_chars_newline l :
  l <> [] -> Forall (fun c => id_char c = true) l ->
  strip (l ++ [newline])%list = l.
Proof.
  intros Hne Hl. unfold strip, rstrip.
  assert (H1 : lstrip (l ++ [newline])%list = (l ++ [newline])%list).
  { destruct l as [|c l]; [done|]. apply Forall_cons in Hl as [Hc _].
    simpl. by rewrite (proj2 (id_char_plain c Hc)). }
  rewrite H1, rev_app_distr. simpl.
  rewrite lstrip_id; [apply rev_involutive|].
  intros c r Hr. apply (f_equal (@rev ascii)) in Hr. rewrite rev_involutive in Hr.
  simpl in Hr. rewrite Hr in Hl. apply Forall_app in Hl as [_ Hl].
  apply Forall_cons in Hl as [Hc _]. by apply id_char_plain.
Qed.

(** [sanitize_input] on an identifier that [validate_id_format] accepts:
    the identifier itself, or the identifier without its final newline. *)
Lemma sanitize_valid_id s :
  validate_id_format s = (true, "") ->
  exists l0, l0 <> [] /\ Forall (fun c => id_char c = true) l0
    /\ (list_ascii_of_string s = l0 \/ list_ascii_of_string s = (l0 ++ [newline])%list)
    /\ sanitize_input s = string_of_list_ascii l0.
Proof.
  intros H. pose proof (valid_id_no_malicious s "" H) as Hclean.
  apply validate_id_format_true in H as (_ & _ & _ & H).
  apply allowed_id_pattern_spec in H as (l0 & Hne & Hl0 & Hs).
  exists l0. split; [done|]. split; [done|]. split; [done|].
  rewrite (proj1 (sanitize_input_clean s Hclean)).
  unfold py_strip, html_escape. rewrite list_ascii_of_string_of_list_ascii. f_equal.
  destruct Hs as [-> | ->].
  - by rewrite escape_id_chars, strip_id_chars.
  - assert (He : escape (l0 ++ [newline])%list = (l0 ++ [newline])%list).
    { clear Hclean Hne. induction Hl0 as [|c l Hc _ IH]; simpl; [done|].
      by rewrite (proj1 (id_char_plain c Hc)), IH. }
    by rewrite He, strip_id_chars_newline.
Qed.

Lemma challenge_id_field_ok_inv f (d : gmap string pyval) :
  challenge_field_violation f d = None -> f <> "playerName" ->
  exists v, d !! f = Some v /\ validate_id_format (py_str v) = (true, "").
Proof.
  unfold challenge_field_violation. destruct (d !! f) as [v|]; [|done].
  destruct (negb (py_truthy v)); [done|].
  intros H Hf. apply String.eqb_neq in Hf. rewrite Hf in H.
  destruct (validate_id_format (py_str v)) as [[] e] eqn:He; [|done].
  exists v. split; [done|]. by apply validate_id_format_true in He as He'; destruct He' as [-> _].
Qed.

(** X7: In a payload accepted by [validate_challenge_data] the stored
    [playerId] and [challengeId] are made of characters of the set
    [[A-Za-z0-9_-]] only and are accepted by [validate_id_format]; they
    are the identifiers received, a final newline being dropped. *)
Theorem accepted_identifiers_in_charset (d d' : gmap string pyval) e :
  validate_challenge_data (Some d) = ((true, e), Some d') ->
  forall f, f ∈ ["playerId"; "challengeId"] ->
    exists v s, d !! f = Some v /\ d' !! f = Some (PyStr s)
      /\ Forall (fun c => id_char c = true) (list_ascii_of_string s)
      /\ validate_id_format s = (true, "")
      /\ (py_str v = s \/ py_str v = s +:+ String newline "").
Proof.
  intros H f Hf. apply validate_challenge_data_accept_inv in H as (_ & Hd' & Hok).
  assert (d' = sanitize_fields ["playerId"; "playerName"; "challengeId"] d) as ->
    by congruence.
  clear Hd'.
  assert (Hf3 : f ∈ ["playerId"; "playerName"; "challengeId"]).
  { apply list_elem_of_In in Hf. apply list_elem_of_In. simpl in *. tauto. }
  assert (Hne : f <> "playerName").
  { apply list_elem_of_In in Hf. simpl in Hf. by destruct Hf as [<-|[<-|[]]]. }
  destruct (challenge_id_field_ok_inv f d (Hok f Hf3) Hne) as (v & Hv & Hvalid).
  destruct (sanitize_valid_id _ Hvalid) as (l0 & Hl0ne & Hl0 & Hs & Hsan).
  exists v, (string_of_list_ascii l0). split; [done|]. split.
  { rewrite (sanitize_fields_lookup _ d f v); [by rewrite Hsan| |done|done].
    by apply required_fields_nodup. }
  rewrite list_ascii_of_string_of_list_ascii. split; [done|]. split.
  - apply validate_id_format_true in Hvalid as (_ & _ & Hlen & _).
    apply validate_id_format_true. split; [done|]. split.
    { intros Heq. apply (f_equal list_ascii_of_string) in Heq.
      by rewrite list_ascii_of_string_of_list_ascii in Heq. }
    split.
    { rewrite string_length_list, list_ascii_of_string_of_list_ascii.
      rewrite string_length_list in Hlen.
      destruct Hs as [Hs|Hs]; rewrite Hs in Hlen; [done|].
      rewrite length_app in Hlen. lia. }
    apply allowed_id_pattern_spec.
    exists l0. rewrite list_ascii_of_string_of_list_ascii. auto.
  - destruct Hs as [Hs|Hs]; [left|right].
    + by rewrite <- Hs, string_of_list_ascii_of_string.
    + rewrite <- (string_of_list_ascii_of_string (py_str v)), Hs.
      rewrite <- (string_of_list_ascii_of_string
                   (string_of_list_ascii l0 +:+ String newline "")).
      by rewrite list_ascii_of_string_app, list_ascii_of_string_of_list_ascii.
Qed.

Lemma accepted_identifiers_in_charset_witness :
  let d : gmap string pyval :=
    <["playerId" := PyStr (String "a" (String newline ""))]>
      (<["playerName" := PyStr "Alice"]> (<["challengeId" := PyStr "C01"]> ∅)) in
  exists v s,
    d !! "playerId" = Some v
    /\ sanitize_fields ["playerId"; "playerName"; "challengeId"] d !! "playerId"
       = Some (PyStr s)
    /\ Forall (fun c => id_char c = true) (list_ascii_of_string s)
    /\ validate_id_format s = (true, "")
    /\ (py_str v = s \/ py_str v = s +:+ String newline "").
Proof.
  intros d. apply (accepted_identifiers_in_charset d _ "").
  - vm_compute. reflexivity.
  - apply list_elem_of_In. simpl. tauto.
Defined.

(** ** How the operations of the client compose *)

Lemma call_ok_drop n k w w' :
  outcomes w' = drop k (outcomes w) -> call_ok (k + n) w -> call_ok n w'.
Proof. unfold call_ok. intros ->. by rewrite lookup_drop. Qed.


(** A successful [update_submission], with what it leaves for the call
    that follows. *)
Lemma update_submission_success pid cid text st w body i cells :
  reachable w = true ->
  worksheets w !! playerlog_sheet = Some (PLAYERLOG_HEADER :: body) ->
  Forall (fun cells => length cells = 6) body ->
  body !! i = Some cells ->
  last_match pid cid (records_of (PLAYERLOG_HEADER :: body)) i
    (dict_zip HEADER_NAMES cells) ->
  call_ok 0 w -> call_ok 1 w -> call_ok 2 w ->
  let cells' := <[5 := text]> (<[4 := st]> cells) in
  let body' := <[i := cells']> body in
  exists w',
    Sheets.update_submission pid cid text st w = (true, w')
    /\ worksheets w' !! playerlog_sheet = Some (PLAYERLOG_HEADER :: body')
    /\ reachable w' = true
    /\ outcomes w' = drop 3 (outcomes w)
    /\ Forall (fun cells => length cells = 6) body'
    /\ body' !! i = Some cells'
    /\ last_match pid cid (records_of (PLAYERLOG_HEADER :: body')) i
         (dict_zip HEADER_NAMES cells').
Proof.
  intros Hr Hg Hsix Hcells Hlast Hok0 Hok1 Hok2 cells' body'.
  destruct (update_submission_on_match pid cid text st w body i _ Hr Hg Hsix Hok0 Hlast)
    as (cells0 & b & w' & Hcells0 & _ & Heq & Hcases).
  rewrite Hcells in Hcells0. injection Hcells0 as <-.
  destruct Hcases as [(Hb & _)|[(_ & Hb & _)|(_ & _ & -> & Hg' & Hr' & Ho')]];
    [by destruct Hok1|by destruct Hok2|].
  assert (Hlen : length cells = 6).
  { rewrite Forall_forall in Hsix. apply Hsix.
    by apply list_elem_of_lookup_2 in Hcells. }
  assert (Hilt : i < length body) by by apply lookup_lt_Some in Hcells.
  exists w'. split; [done|]. split; [done|]. split; [done|]. split; [done|].
  split; [|split].
  - apply Forall_insert; [done|]. subst cells'. by rewrite !length_insert.
  - subst body'. by apply list_lookup_insert_eq.
  - destruct (written_row pid cid cells st text Hlen) as (Hm & _).
    destruct Hlast as (Hi & Hmr & Hafter). rewrite records_of_playerlog in *.
    subst body'. split; [|split].
    + by rewrite list_lookup_fmap, list_lookup_insert_eq.
    + subst cells'. by rewrite Hm.
    + intros j r' Hj Hr''. apply (Hafter j); [done|].
      rewrite list_lookup_fmap in *.
      by rewrite list_lookup_insert_ne in Hr'' by lia.
Qed.

(** X10: Two successive successful calls of [update_submission] with the same
    arguments leave the table that the first one left: unlike
    [log_challenge], [update_submission] is idempotent. *)
Theorem update_submission_idempotent pid cid text st w g body :
  reachable w = true ->
  worksheets w !! playerlog_sheet = Some g ->
  playerlog_table g body ->
  (exists r, r ∈ records_of g /\ row_matches pid cid r = true) ->
  (forall n, n < 6 -> call_ok n w) ->
  exists w1 w2,
    Sheets.update_submission pid cid text st w = (true, w1)
    /\ Sheets.update_submission pid cid text st w1 = (true, w2)
    /\ worksheets w2 !! playerlog_sheet = worksheets w1 !! playerlog_sheet.
Proof.
  intros Hr Hg [-> Hsix] (r0 & Hin & Hm0) Hok.
  destruct (last_match_or_none pid cid (records_of (PLAYERLOG_HEADER :: body)))
    as [(i & r & Hlast)|Hn]; [|specialize (Hn r0 Hin); congruence].
  pose proof Hlast as (Hi & _).
  rewrite records_of_playerlog, list_lookup_fmap in Hi.
  destruct (body !! i) as [cells|] eqn:Hcells; [|done]. injection Hi as <-.
  destruct (update_submission_success pid cid text st w body i cells Hr Hg Hsix
              Hcells Hlast (Hok 0 ltac:(lia)) (Hok 1 ltac:(lia)) (Hok 2 ltac:(lia)))
    as (w1 & Hu1 & Hg1 & Hr1 & Ho1 & Hsix1 & Hcells1 & Hlast1).
  destruct (update_submission_success pid cid text st w1 _ i _ Hr1 Hg1 Hsix1
              Hcells1 Hlast1
              (call_ok_drop 0 3 w w1 Ho1 (Hok 3 ltac:(lia)))
              (call_ok_drop 1 3 w w1 Ho1 (Hok 4 ltac:(lia)))
              (call_ok_drop 2 3 w w1 Ho1 (Hok 5 ltac:(lia))))
    as (w2 & Hu2 & Hg2 & _).
  exists w1, w2. split; [done|]. split; [done|]. rewrite Hg2, Hg1. do 2 f_equal.
  rewrite list_insert_insert_eq. f_equal.
  assert (Hlen : length cells = 6).
  { rewrite Forall_forall in Hsix. apply Hsix.
    by apply list_elem_of_lookup_2 in Hcells. }
  by destruct (six_cells cells Hlen) as (a & b & c & d0 & e0 & f0 & ->).
Qed.

Lemma update_submission_idempotent_witness :
  exists w1 w2,
    Sheets.update_submission (PyStr "1") (PyStr "C01") (PyStr "done")
      (PyStr "Submitted") sample_world = (true, w1)
    /\ Sheets.update_submission (PyStr "1") (PyStr "C01") (PyStr "done")
         (PyStr "Submitted") w1 = (true, w2)
    /\ worksheets w2 !! playerlog_sheet = worksheets w1 !! playerlog_sheet.
Proof.
  apply (update_submission_idempotent (PyStr "1") (PyStr "C01") (PyStr "done")
           (PyStr "Submitted") sample_world sample_log (tail sample_log)).
  - reflexivity.
  - reflexivity.
  - split; [reflexivity|]. repeat constructor.
  - exists (dict_zip HEADER_NAMES
              [PyStr "2024-05-01 10:00:00"; PyInt 1; PyStr "Alice"; PyStr "C01";
               PyStr "Received"; PyStr ""]).
    split; [left|vm_compute; reflexivity].
  - intros n _ H. unfold sample_world in H. simpl in H.
    rewrite lookup_nil in H. discriminate H.
Defined.




(** ** The handlers *)

(** X12: A request that its validator refuses is answered 400 with the
    message of the validator, and the store is not called: the world is
    left as it was. *)
Theorem invalid_request_short_circuits :
  (forall data e data' w,
     validate_submission_data data = ((false, e), data') ->
     Routes.submit_challenge data w = (mkResponse 400 "error" e, w))
  /\ (forall data e data' w,
        validate_challenge_data data = ((false, e), data') ->
        Routes.log_challenge data w = (mkResponse 400 "error" e, w))
  /\ (forall p c e w,
        validate_status_query p c = (false, e) ->
        Routes.get_status p c w
        = ((400, json_object [("status", PyStr "error"); ("message", PyStr e)]), w)).
Proof.
  split; [|split].
  - intros data e data' w H. unfold Routes.submit_challenge, run, try_except.
    by rewrite H.
  - intros data e data' w H. unfold Routes.log_challenge, run, try_except.
    by rewrite H.
  - intros p c e w H. unfold Routes.get_status, run, try_except.
    by rewrite H.
Qed.

Lemma invalid_request_short_circuits_witness :
  Routes.get_status (Some "bad id!") (Some "C01") sample_world
  = ((400, json_object
             [("status", PyStr "error");
              ("message", PyStr "playerId: ID contains invalid characters (only alphanumeric, underscore, and dash allowed)")]),
     sample_world).
Proof.
  destruct invalid_request_short_circuits as (_ & _ & H).
  apply H. vm_compute. reflexivity.
Defined.


Lemma sanitized_lookup3 (d : gmap string pyval) a b c f v :
  a <> b -> a <> c -> b <> c -> f ∈ [a; b; c] -> d !! f = Some v ->
  sanitize_fields [a; b; c] d !! f = Some (PyStr (sanitize_input (py_str v))).
Proof.
  intros Hab Hac Hbc Hf Hv.
  apply sanitize_fields_lookup; [by apply required_fields_nodup|done|done].
Qed.

(** The answer of [POST /log_challenge] to an accepted payload, from the
    result of the client. *)
Lemma log_handler_result (d : gmap string pyval) v1 v2 v3 e w b w' :
  d !! "playerId" = Some v1 -> d !! "playerName" = Some v2 ->
  d !! "challengeId" = Some v3 ->
  validate_challenge_data (Some d)
  = ((true, e), Some (sanitize_fields ["playerId"; "playerName"; "challengeId"] d)) ->
  Sheets.log_challenge (PyStr (sanitize_input (py_str v1)))
    (PyStr (sanitize_input (py_str v2))) (PyStr (sanitize_input (py_str v3)))
    (PyStr "Received") (PyStr "") w = (b, w') ->
  Routes.log_challenge (Some d) w
  = (if b then mkResponse 200 "success" "Data logged successfully"
     else mkResponse 500 "error" "Failed to log data to Google Sheets", w').
Proof.
  intros H1 H2 H3 Hval Hl. unfold Routes.log_challenge, run, try_except.
  rewrite Hval. cbv beta iota. cbn [negb].
  rewrite (sanitized_lookup3 d _ _ _ "playerId" v1) by
    (done || (apply list_elem_of_In; simpl; tauto)).
  rewrite (sanitized_lookup3 d _ _ _ "playerName" v2) by
    (done || (apply list_elem_of_In; simpl; tauto)).
  rewrite (sanitized_lookup3 d _ _ _ "challengeId" v3) by
    (done || (apply list_elem_of_In; simpl; tauto)).
  rewrite Hl. by destruct b.
Qed.

(** X13: [POST /log_challenge] on a payload that the validator accepts: the
    answer is 200 when the client logs it and 500 with the message of the
    failed log otherwise; the row that a reachable store receives holds
    the sanitized fields, the status Received and an empty submission
    text, and none of its three fields holds a [<], a [>] or a quote. *)
Theorem log_handler_stores_sanitized (d : gmap string pyval) v1 v2 v3 w :
  d !! "playerId" = Some v1 -> d !! "playerName" = Some v2 ->
  d !! "challengeId" = Some v3 ->
  fst (fst (validate_challenge_data (Some d))) = true ->
  let p := sanitize_input (py_str v1) in
  let n := sanitize_input (py_str v2) in
  let c := sanitize_input (py_str v3) in
  (forall b w',
     Sheets.log_challenge (PyStr p) (PyStr n) (PyStr c) (PyStr "Received") (PyStr "") w
     = (b, w') ->
     Routes.log_challenge (Some d) w
     = (if b then mkResponse 200 "success" "Data logged successfully"
        else mkResponse 500 "error" "Failed to log data to Google Sheets", w'))
  /\ (forall g,
        reachable w = true -> worksheets w !! playerlog_sheet = Some g ->
        call_ok 0 w ->
        exists w',
          Routes.log_challenge (Some d) w
          = (mkResponse 200 "success" "Data logged successfully", w')
          /\ worksheets w' !! playerlog_sheet
             = Some (g ++ [[PyStr (clock w (ticks w)); PyStr p; PyStr n; PyStr c;
                            PyStr "Received"; PyStr ""]])%list)
  /\ Forall (fun s => Forall (fun x => is_markup x = false) (list_ascii_of_string s))
       [p; n; c].
Proof.
  intros H1 H2 H3 Hv p n c.
  destruct (validate_challenge_data (Some d)) as [[b0 e] o] eqn:Hval.
  simpl in Hv. subst b0.
  apply validate_challenge_data_accept_inv in Hval as Hinv.
  destruct Hinv as (-> & -> & _).
  assert (Hhandler : forall b w',
     Sheets.log_challenge (PyStr p) (PyStr n) (PyStr c) (PyStr "Received") (PyStr "") w
     = (b, w') ->
     Routes.log_challenge (Some d) w
     = (if b then mkResponse 200 "success" "Data logged successfully"
        else mkResponse 500 "error" "Failed to log data to Google Sheets", w')).
  { intros b w' Hl. by apply (log_handler_result d v1 v2 v3 "" w b w'). }
  split; [exact Hhandler|]. split.
  - intros g Hr Hg Hok.
    destruct (log_challenge_succeeds (PyStr p) (PyStr n) (PyStr c) (PyStr "Received")
                (PyStr "") w g Hr Hg Hok) as (w' & Hl & _).
    exists w'. split; [by rewrite (Hhandler true w' Hl)|].
    destruct (log_challenge_step _ _ _ _ _ _ _ _ Hl) as [(_ & g0 & Hg0 & Hg1)|[? _]];
      [|done].
    rewrite Hg in Hg0. injection Hg0 as <-. exact Hg1.
  - assert (Hm : forall t, Forall (fun x => is_markup x = false)
                             (list_ascii_of_string (sanitize_input t))).
    { intros t. eapply Forall_impl; [apply sanitize_input_no_markup_bool|done]. }
    repeat constructor; apply Hm.
Qed.

Lemma log_handler_stores_sanitized_witness :
  let d : gmap string pyval :=
    <["playerId" := PyInt 12345]> (<["playerName" := PyStr "<b>Al</b>"]>
      (<["challengeId" := PyStr "C01"]> ∅)) in
  exists w',
    Routes.log_challenge (Some d) sample_world
    = (mkResponse 200 "success" "Data logged successfully", w')
    /\ worksheets w' !! playerlog_sheet
       = Some (sample_log ++
                 [[PyStr "2024-05-02 08:00:00"; PyStr "12345";
                   PyStr "&lt;b&gt;Al&lt;/b&gt;"; PyStr "C01";
                   PyStr "Received"; PyStr ""]])%list.
Proof.
  intros d.
  destruct (log_handler_stores_sanitized d (PyInt 12345) (PyStr "<b>Al</b>")
              (PyStr "C01") sample_world eq_refl eq_refl eq_refl)
    as (_ & H & _); [vm_compute; reflexivity|].
  destruct (H sample_log eq_refl eq_refl) as (w' & Hr & Hg);
    [intros Hc; discriminate Hc|].
  exists w'. split; [exact Hr|]. rewrite Hg. vm_compute. reflexivity.
Defined.




Lemma get_challenges_eq w :
  Sheets.get_challenges w =
    if reachable w then
      match worksheets w !! challenges_sheet with
      | None => ([], connected w)
      | Some g =>
          match outcomes w with
          | false :: o => ([], set_outcomes o (connected w))
          | true :: o => (records_of g, set_outcomes o (connected w))
          | [] => (records_of g, connected w)
          end
      end
    else ([], w).
Proof.
  unfold Sheets.get_challenges, run, try_except, bind. rewrite get_worksheet_eq.
  destruct (reachable w); [|done].
  destruct (worksheets w !! challenges_sheet) as [g|] eqn:Hg; [|done].
  unfold get_all_records, bind, api_call, ret.
  rewrite connected_outcomes.
  destruct (outcomes w) as [|[] o]; cbn; rewrite ?connected_worksheets, ?Hg; cbn;
    try done; by destruct (records_of g).
Qed.




(** X16: A store that is not reached leaves the client as it was: no failure
    is kept, and each call tries to connect again. *)
Theorem unreachable_store_leaves_client w pid name cid st text :
  reachable w = false ->
  Sheets.log_challenge pid name cid st text w = (false, w)
  /\ Sheets.update_submission pid cid text st w = (false, w)
  /\ Sheets.get_player_status pid cid w = (None, w)
  /\ Sheets.get_challenges w = ([], w).
Proof.
  intros Hr. repeat split.
  - unfold Sheets.log_challenge, run, try_except. unfold bind at 1.
    by rewrite get_worksheet_eq, Hr.
  - unfold Sheets.update_submission, run, try_except. unfold bind at 1.
    by rewrite get_worksheet_eq, Hr.
  - by rewrite get_player_status_eq, Hr.
  - by rewrite get_challenges_eq, Hr.
Qed.

Lemma unreachable_store_leaves_client_witness :
  let w := mkWorld false false (<[playerlog_sheet := sample_log]> ∅) []
             (fun _ => "") 0 in
  Sheets.get_player_status (PyStr "1") (PyStr "C01") w = (None, w).
Proof.
  intros w.
  apply (unreachable_store_leaves_client w (PyStr "1") (PyStr "Alice") (PyStr "C01")
           (PyStr "Received") (PyStr "")).
  reflexivity.
Defined.

(** ** The flow of a challenge through the three handlers *)





